(** * latch-asgi: the connection-level protocol adapter

    A shallow embedding of [latch_asgi/framework.py] (body reader, websocket
    message primitives, wire senders, error classes) and of
    [latch_asgi/context/websocket.py] (the per-connection request context),
    with the properties of the specification stated over it.

    Python values are modelled as follows.
    - [bytes] is a list of 8-bit bytes; [len] is [length], [+] is [++].
    - [str] is a list of Unicode code points; [encode("utf-8")] and
      [encode("latin-1")] are partial (they raise [UnicodeEncodeError]).
    - [dict[bytes, bytes]] is a [gmap]; a [dict] that is only iterated
      ([Headers]) is the list of its items in insertion order.
    - an [async] function is a state transformer over the connection: the
      gateway's [receive] pops the next delivered event, [send] appends to
      the events sent so far; exceptions are an outcome of their own. *)

From Stdlib Require Import NArith ZArith Lia.
From Stdlib Require Import Strings.Byte Strings.Ascii Strings.String.
From Stdlib Require Import Numbers.DecimalString Numbers.DecimalNat.
From stdpp Require Import gmap list.

#[global] Set Warnings "-clear-no-such-hyp".

(* ===================================================================== *)
(** ** Python [bytes] and [str] *)
(* ===================================================================== *)

Module Py.

(** [bytes]: an immutable sequence of bytes. *)
Definition bytes : Type := list byte.

(** [str]: a sequence of Unicode code points (0 .. 0x10FFFF). *)
Definition codepoint : Type := N.
Definition str : Type := list codepoint.

#[global] Instance byte_eq_dec : EqDecision byte := Byte.byte_eq_dec.
#[global] Instance byte_countable : Countable byte :=
  inj_countable Byte.to_N Byte.of_N Byte.of_to_N.

(** A bytes literal [b"..."] written as a Rocq string. *)
Definition B (s : string) : bytes := list_byte_of_string s.

(** A str literal made of Latin-1 characters only. *)
Definition U (s : string) : str := map Byte.to_N (list_byte_of_string s).

#[global] Arguments B : simpl never.
#[global] Arguments U : simpl never.

(** The byte with the given value (values are reduced modulo 256). *)
Definition byte_of_N (n : N) : byte :=
  match Byte.of_N (n mod 256) with
  | Some x => x
  | None => x00
  end.

(** [s.encode("latin-1")]: every code point must be below 256. *)
Fixpoint encode_latin1 (s : str) : option bytes :=
  match s with
  | [] => Some []
  | c :: s' =>
      match Byte.of_N c, encode_latin1 s' with
      | Some x, Some r => Some (x :: r)
      | _, _ => None
      end
  end.

(** [x.decode("latin-1")]: total, one code point per byte. *)
Definition decode_latin1 (x : bytes) : str := map Byte.to_N x.

(** UTF-8 encoding of one code point; surrogates (0xD800 .. 0xDFFF) and
    values above 0x10FFFF cannot be encoded. *)
Definition utf8_encode_codepoint (c : codepoint) : option bytes :=
  if (c <? 0x80)%N then Some [byte_of_N c]
  else if (c <? 0x800)%N then
    Some [byte_of_N (N.lor 0xC0 (N.shiftr c 6));
          byte_of_N (N.lor 0x80 (N.land c 0x3F))]
  else if (c <? 0x10000)%N then
    if ((0xD800 <=? c) && (c <=? 0xDFFF))%N then None
    else
      Some [byte_of_N (N.lor 0xE0 (N.shiftr c 12));
            byte_of_N (N.lor 0x80 (N.land (N.shiftr c 6) 0x3F));
            byte_of_N (N.lor 0x80 (N.land c 0x3F))]
  else if (c <? 0x110000)%N then
    Some [byte_of_N (N.lor 0xF0 (N.shiftr c 18));
          byte_of_N (N.lor 0x80 (N.land (N.shiftr c 12) 0x3F));
          byte_of_N (N.lor 0x80 (N.land (N.shiftr c 6) 0x3F));
          byte_of_N (N.lor 0x80 (N.land c 0x3F))]
  else None.

(** [s.encode("utf-8")]. *)
Fixpoint encode_utf8 (s : str) : option bytes :=
  match s with
  | [] => Some []
  | c :: s' =>
      match utf8_encode_codepoint c, encode_utf8 s' with
      | Some x, Some r => Some (x ++ r)
      | _, _ => None
      end
  end.

(** [str(n)] for a non-negative [int]: its decimal numeral. *)
Definition str_of_nat (n : nat) : str :=
  U (NilZero.string_of_uint (Nat.to_uint n)).

#[local] Set Warnings "-register-all".

(** The values [simdjson] parses to, [orjson.dumps] accepts and error
    payloads carry ([Any] in the source): JSON-shaped Python values. *)
Inductive value : Type :=
| PyNone
| PyBool (x : bool)
| PyInt (x : Z)
| PyStr (x : str)
| PyList (xs : list value)
| PyDict (items : list (str * value)).

(** [str | bytes] *)
Inductive str_or_bytes : Type :=
| Str (s : str)
| Bytes (x : bytes).

(** [Headers: TypeAlias = dict[str | bytes, str | bytes]]; the functions
    below only iterate over [headers.items()], in insertion order. *)
Definition Headers : Type := list (str_or_bytes * str_or_bytes).

End Py.
Export Py.


(* ===================================================================== *)
(** ** Exceptions and the effect monad *)
(* ===================================================================== *)

Module Effects.

(** [http.HTTPStatus], by its numeric value. *)
Definition HTTPStatus : Type := Z.
Definition OK : HTTPStatus := 200%Z.
Definition BAD_REQUEST : HTTPStatus := 400%Z.
Definition FORBIDDEN : HTTPStatus := 403%Z.
Definition INTERNAL_SERVER_ERROR : HTTPStatus := 500%Z.

(** The exception classes of [framework.py] (lines 60-102), one constructor
    per concrete class, the built-in [UnicodeEncodeError] that [str.encode]
    raises and the [JSONEncodeError] of [orjson.dumps].  The classes deriving
    from [HTTPErrorResponse] carry [data] and [headers]; their [status] is
    fixed by the class. *)
Inductive exn : Type :=
| HTTPInternalServerError (data : value) (headers : Headers)
| HTTPBadRequest (data : value) (headers : Headers)
| HTTPForbidden (data : value) (headers : Headers)
| HTTPConnectionClosedError
| WebsocketConnectionClosedError
| WebsocketBadMessage (data : value) (headers : Headers)
| WebsocketInternalServerError (data : value) (headers : Headers)
| UnicodeEncodeError
| JSONEncodeError.

(** [e.status], for the subclasses of [HTTPErrorResponse]; the two
    connection-closed errors derive from [RuntimeError] and carry none. *)
Definition status (e : exn) : option HTTPStatus :=
  match e with
  | HTTPInternalServerError _ _ => Some INTERNAL_SERVER_ERROR
  | HTTPBadRequest _ _ => Some BAD_REQUEST
  | HTTPForbidden _ _ => Some FORBIDDEN
  | WebsocketBadMessage _ _ => Some BAD_REQUEST
  | WebsocketInternalServerError _ _ => Some INTERNAL_SERVER_ERROR
  | HTTPConnectionClosedError
  | WebsocketConnectionClosedError
  | UnicodeEncodeError
  | JSONEncodeError => None
  end.

(** How a call ends: it returns, it raises, or it stays suspended in an
    [await receive()] for which the gateway has no event to deliver. *)
Inductive outcome (A : Type) : Type :=
| Returned (a : A)
| Raised (e : exn)
| Pending.
Arguments Returned {A} a.
Arguments Raised {A} e.
Arguments Pending {A}.

(** A computation over a mutable state [S]. *)
Definition M (S A : Type) : Type := S -> outcome A * S.

Definition ret {S A} (a : A) : M S A := fun s => (Returned a, s).
Definition raise {S A} (e : exn) : M S A := fun s => (Raised e, s).
Definition bind {S A B} (m : M S A) (k : A -> M S B) : M S B :=
  fun s =>
    match m s with
    | (Returned a, s') => k a s'
    | (Raised e, s') => (Raised e, s')
    | (Pending, s') => (Pending, s')
    end.
Definition modify {S} (f : S -> S) : M S unit := fun s => (Returned tt, f s).
Definition gets {S A} (f : S -> A) : M S A := fun s => (Returned (f s), s).

(** [try: m except <handles>: h]. *)
Definition try_except {S A} (m : M S A) (h : exn -> option (M S A)) : M S A :=
  fun s =>
    match m s with
    | (Raised e, s') =>
        match h e with
        | Some k => k s'
        | None => (Raised e, s')
        end
    | r => r
    end.

(** Lifts a partial encoder: [None] is [UnicodeEncodeError]. *)
Definition encoded {S} (r : option bytes) : M S bytes :=
  match r with
  | Some x => ret x
  | None => raise UnicodeEncodeError
  end.

Declare Scope py_scope.
Delimit Scope py_scope with py.
Notation "x <- m ;; k" := (bind m (fun x => k))
  (at level 100, m at next level, right associativity) : py_scope.
Notation "m ;;; k" := (bind m (fun _ => k))
  (at level 100, right associativity) : py_scope.

End Effects.
Export Effects.

(* ===================================================================== *)
(** ** The gateway and the observability spans *)
(* ===================================================================== *)

Module Gateway.

(** Modelled from the spec: the events of [asgi_iface] (section 6), whose
    declarations are imported by [framework.py] but not part of the sources.
    Inbound HTTP: a body delivery [{body, more_body}] or a disconnect. *)
Inductive HTTPReceiveEvent : Type :=
| HTTPRequestEvent (body : bytes) (more_body : bool)
| HTTPDisconnectEvent.

(** Modelled from the spec: outbound HTTP events (section 6). *)
Inductive HTTPSendEvent : Type :=
| HTTPResponseStartEvent (status : HTTPStatus) (headers : list (bytes * bytes))
| HTTPResponseBodyEvent (body : bytes) (more_body : bool).

(** Modelled from the spec: inbound websocket events (section 6); a receive
    event carries [bytes | None] and [text | None]. *)
Inductive WebsocketReceiveEvent : Type :=
| WebsocketConnectEvent
| WebsocketReceiveEvent_ (bytes_ : option bytes) (text : option str)
| WebsocketDisconnectEvent.

(** Modelled from the spec: outbound websocket events (section 6). *)
Inductive WebsocketSendEvent_ : Type :=
| WebsocketAcceptEvent (subprotocol : option str) (headers : list (bytes * bytes))
| WebsocketSendEvent (bytes_ : option bytes) (text : option str)
| WebsocketCloseEvent (code : Z) (reason : str).

(** The span an attribute is set on: the request span found in the ambient
    context ([current_http_request_span], [current_websocket_request_span])
    or a span started by the tracer under the given name.  Only the
    attributes set on spans are recorded: the decorators [trace_function],
    [trace_function_with_span] and [trace_app_function] of latch_o11y open a
    span around the call and change nothing else. *)
Inductive span : Type :=
| RequestSpan
| TracerSpan (name : string).

Inductive attribute_value : Type :=
| AttrInt (n : Z)
| AttrBool (x : bool)
| AttrStr (s : str).

(** The [set_attribute] calls made so far, oldest first. *)
Definition span_log : Type := list (span * str * attribute_value).

(** One connection as the adapter sees it: the events the gateway delivers
    to [receive] (next first), the events passed to [send] (oldest first),
    and the attributes recorded on spans. *)
Record Conn (I O : Type) : Type := mkConn {
  inbox : list I;
  outbox : list O;
  spans : span_log
}.
Arguments mkConn {I O} inbox outbox spans.
Arguments inbox {I O} c.
Arguments outbox {I O} c.
Arguments spans {I O} c.

Definition HTTPConn : Type := Conn HTTPReceiveEvent HTTPSendEvent.
Definition WebsocketConn : Type := Conn WebsocketReceiveEvent WebsocketSendEvent_.

Section Primitives.
Context {I O : Type}.

(** [await receive()]: the next delivered event; suspended when none. *)
Definition receive : M (Conn I O) I :=
  fun c =>
    match inbox c with
    | [] => (Pending, c)
    | msg :: rest => (Returned msg, mkConn rest (outbox c) (spans c))
    end.

(** [await send(ev)]. *)
Definition send (ev : O) : M (Conn I O) unit :=
  modify (fun c => mkConn (inbox c) (outbox c ++ [ev]) (spans c)).

(** [s.set_attribute(key, v)]. *)
Definition set_attribute (s : span) (key : str) (v : attribute_value)
  : M (Conn I O) unit :=
  modify (fun c => mkConn (inbox c) (outbox c) (spans c ++ [(s, key, v)])).

(** [s.set_attributes({...})], in the dict's order. *)
Definition set_attributes (s : span) (kvs : list (str * attribute_value))
  : M (Conn I O) unit :=
  modify (fun c =>
    mkConn (inbox c) (outbox c) (spans c ++ map (fun kv => (s, kv.1, kv.2)) kvs)).
End Primitives.

(** [len(x)] as a span attribute. *)
Definition AttrLen (x : bytes) : attribute_value := AttrInt (Z.of_nat (length x)).

End Gateway.
Export Gateway.

(* ===================================================================== *)
(** ** [latch_asgi/framework.py] *)
(* ===================================================================== *)

Module Framework.

#[local] Open Scope py_scope.

(** [if isinstance(x, str): x = x.encode(...)] *)
Definition encode_if_str {S} (encode : str -> option bytes) (x : str_or_bytes)
  : M S bytes :=
  match x with
  | Str s => encoded (encode s)
  | Bytes y => ret y
  end.

(** The loop shared by [accept_websocket_connection] (lines 252-257) and
    [send_http_data] (lines 300-305): every key, then its value, is encoded
    as Latin-1 when it is a [str], and the pair is appended. *)
Fixpoint append_headers {S} (headers : Headers)
    (headers_to_send : list (bytes * bytes)) : M S (list (bytes * bytes)) :=
  match headers with
  | [] => ret headers_to_send
  | (k, v) :: rest =>
      k' <- encode_if_str encode_latin1 k;;
      v' <- encode_if_str encode_latin1 v;;
      append_headers rest (headers_to_send ++ [(k', v')])
  end.

Section IO.
(** The external collaborators: [simdjson.Parser().parse(res, True)]
    ([None] stands for its [ValueError]), [validate(data, cls)] of
    latch_data_validation for a fixed [cls] with the [json()] method of
    its [DataValidationError], and [orjson.dumps]. *)
Variable parse : bytes -> option value.
Variables T DataValidationError : Type.
Variable validate : value -> T + DataValidationError.
Variable json : DataValidationError -> value.
Variable dumps : value -> option bytes.

(** *** HTTP body reader *)

(** One turn of the [while more_body] loop (lines 141-149): the new [res]
    and [more_body]. *)
Definition read_chunk (res : bytes) : M HTTPConn (bytes * bool) :=
  msg <- receive;;
  match msg with
  | HTTPDisconnectEvent => raise HTTPConnectionClosedError
  | HTTPRequestEvent body more_body =>
      set_attributes (TracerSpan "read chunk")
        [(U "size", AttrLen body); (U "more_body", AttrBool more_body)];;;
      ret (res ++ body, more_body)
  end.

(** The loop itself. Every turn consumes one delivered event, so [fuel]
    above the number of delivered events is never used up
    ([receive_data_loop_fuel]). *)
Fixpoint receive_data_loop (fuel : nat) (res : bytes) : M HTTPConn bytes :=
  match fuel with
  | 0 => fun c => (Pending, c)
  | S fuel' =>
      r <- read_chunk res;;
      if r.2 then receive_data_loop fuel' r.1 else ret r.1
  end.

(** [receive_data] (lines 137-155). *)
Definition receive_data : M HTTPConn bytes :=
  fun c =>
    (res <- receive_data_loop (S (length (inbox c))) [];;
     set_attribute RequestSpan (U "http.request_content_length") (AttrLen res);;;
     ret res) c.

(** [receive_json] (lines 126-134). *)
Definition receive_json : M HTTPConn value :=
  res <- receive_data;;
  match parse res with
  | Some v => ret v
  | None => raise (HTTPBadRequest (PyStr (U "Failed to parse JSON")) [])
  end.

(** [receive_class_ext] (lines 110-118). *)
Definition receive_class_ext : M HTTPConn (value * T) :=
  data <- receive_json;;
  match validate data with
  | inl x => ret (data, x)
  | inr e => raise (HTTPBadRequest (json e) [])
  end.

(** [receive_class] (lines 121-123). *)
Definition receive_class : M HTTPConn T :=
  r <- receive_class_ext;;
  ret r.2.

(** *** Websocket messages *)

(** [receive_websocket_data] (lines 158-178). *)
Definition receive_websocket_data : M WebsocketConn bytes :=
  msg <- receive;;
  match msg with
  | WebsocketConnectEvent =>
      raise (WebsocketBadMessage
               (PyStr (U "connection has already been established")) [])
  | WebsocketDisconnectEvent => raise WebsocketConnectionClosedError
  | WebsocketReceiveEvent_ bytes_ text =>
      res <- match bytes_, text with
             | Some x, _ => ret x
             | None, Some t => encoded (encode_utf8 t)
             | None, None =>
                 raise (WebsocketBadMessage (PyStr (U "empty message")) [])
             end;;
      set_attributes (TracerSpan "read websocket message")
        [(U "size", AttrLen res)];;;
      ret res
  end.

(** *** The generator [receive_websocket_data_iter] (lines 181-187) *)

(** What one resumption of the generator gives its consumer. *)
Inductive resumption : Type :=
| Yielded (x : bytes)
| StopAsyncIteration
| Propagated (e : exn)
| Suspended.

(** One turn of [while True: try: yield await receive_websocket_data(receive)
    except WebsocketConnectionClosedError: break]. *)
Definition anext (c : WebsocketConn) : resumption * WebsocketConn :=
  match receive_websocket_data c with
  | (Returned x, c') => (Yielded x, c')
  | (Raised WebsocketConnectionClosedError, c') => (StopAsyncIteration, c')
  | (Raised e, c') => (Propagated e, c')
  | (Pending, c') => (Suspended, c')
  end.

(** [async for x in receive_websocket_data_iter(receive)] run to its end:
    the payloads yielded, in order, and the resumption that ended it. *)
Fixpoint async_for (fuel : nat) (c : WebsocketConn)
  : list bytes * resumption * WebsocketConn :=
  match fuel with
  | 0 => ([], Suspended, c)
  | S fuel' =>
      match anext c with
      | (Yielded x, c') =>
          let '(xs, r, c'') := async_for fuel' c' in (x :: xs, r, c'')
      | (r, c') => ([], r, c')
      end
  end.

Definition receive_websocket_data_iter (c : WebsocketConn)
  : list bytes * resumption * WebsocketConn :=
  async_for (S (length (inbox c))) c.

(** [receive_websocket_json] (lines 190-198). *)
Definition receive_websocket_json : M WebsocketConn value :=
  res <- receive_websocket_data;;
  match parse res with
  | Some v => ret v
  | None => raise (WebsocketBadMessage (PyStr (U "Failed to parse JSON")) [])
  end.

(** [receive_websocket_class_ext] (lines 201-210). *)
Definition receive_websocket_class_ext : M WebsocketConn (value * T) :=
  data <- receive_websocket_json;;
  match validate data with
  | inl x => ret (data, x)
  | inr e => raise (WebsocketBadMessage (json e) [])
  end.

(** [receive_websocket_class] (lines 213-215). *)
Definition receive_websocket_class : M WebsocketConn T :=
  r <- receive_websocket_class_ext;;
  ret r.2.

(** *** Websocket senders *)

(** [send_websocket_data] (lines 218-233). *)
Definition send_websocket_data (data : str_or_bytes) : M WebsocketConn unit :=
  data <- encode_if_str encode_utf8 data;;
  set_attribute (TracerSpan "send_websocket_data")
    (U "websocket response size") (AttrLen data);;;
  send (WebsocketSendEvent (Some data) None);;;
  set_attribute RequestSpan
    (U "websocket.sent_message_content_length") (AttrLen data).

(** [accept_websocket_connection] (lines 236-263). *)
Definition accept_websocket_connection (subprotocol : option str)
    (headers : Headers) : M WebsocketConn unit :=
  msg <- receive;;
  match msg with
  | WebsocketConnectEvent =>
      headers_to_send <- append_headers headers [];;
      send (WebsocketAcceptEvent subprotocol headers_to_send)
  | _ =>
      raise (WebsocketBadMessage
               (PyStr (U "cannot accept connection without connection request"))
               [])
  end.

(** [close_websocket_connection] (lines 266-279); [status] is
    [WebsocketStatus.value]. *)
Definition close_websocket_connection (status : Z) (data : str)
  : M WebsocketConn unit :=
  set_attribute (TracerSpan "close_websocket_connection")
    (U "websocket close reason") (AttrStr data);;;
  send (WebsocketCloseEvent status data);;;
  set_attribute RequestSpan (U "websocket.http.close_reason") (AttrStr data).

(** *** HTTP senders *)

(** [send_http_data] (lines 282-321). *)
Definition send_http_data (status : HTTPStatus) (data : str_or_bytes)
    (content_type : option str_or_bytes) (headers : Headers)
  : M HTTPConn unit :=
  data <- encode_if_str encode_utf8 data;;
  set_attribute (TracerSpan "send_http_data") (U "size") (AttrLen data);;;
  content_length <- encoded (encode_latin1 (str_of_nat (length data)));;
  headers_to_send <- append_headers headers
                       [(B "Content-Length", content_length)];;
  headers_to_send <-
    match content_type with
    | Some ct =>
        ct' <- encode_if_str encode_latin1 ct;;
        ret (headers_to_send ++ [(B "Content-Type", ct')])
    | None => ret headers_to_send
    end;;
  send (HTTPResponseStartEvent status headers_to_send);;;
  send (HTTPResponseBodyEvent data false);;;
  set_attribute RequestSpan (U "http.response_content_length") (AttrLen data).

(** [send_json] (lines 324-336). *)
Definition send_json (status : HTTPStatus) (data : value)
    (content_type : str) (headers : Headers) : M HTTPConn unit :=
  match dumps data with
  | Some body =>
      send_http_data status (Bytes body) (Some (Str content_type)) headers
  | None => raise JSONEncodeError
  end.

(** What [send_auto] is given: [str | bytes | Any].  A Python str is a
    str however it is written here, as [Raw (Str s)] or as the value
    [Json (PyStr s)]. *)
Inductive auto_data : Type :=
| Raw (x : str_or_bytes)
| Json (x : value).

(** [send_auto] (lines 339-351), with the defaults of the two senders
    for [content_type]: the first two branches are
    [isinstance(data, str) or isinstance(data, bytes)]. *)
Definition send_auto (status : HTTPStatus) (data : auto_data)
    (headers : Headers) : M HTTPConn unit :=
  match data with
  | Raw x => send_http_data status x (Some (Str (U "text/plain"))) headers
  | Json (PyStr s) =>
      send_http_data status (Str s) (Some (Str (U "text/plain"))) headers
  | Json x => send_json status x (U "application/json") headers
  end.

End IO.

End Framework.
Export Framework.

(* ===================================================================== *)
(** ** [latch_asgi/context/websocket.py] *)
(* ===================================================================== *)

Module ContextWebsocket.

#[local] Open Scope py_scope.

(** Modelled from the spec: [WebsocketScope] of [asgi_iface] (section 3,
    Connection Scope), read-only metadata of which the context reads the
    header list only. *)
Record WebsocketScope : Type := mkScope {
  headers : list (bytes * bytes)
}.

(** Modelled from the spec: [Authorization] of [latch_asgi/auth.py], which is
    not part of the sources (section 3): "optional subject identifier" (the
    field [oauth_sub] read at line 41), "optional principal metadata, and a
    boolean is-present flag", three components of their own. *)
Record Authorization : Type := mkAuthorization {
  oauth_sub : option str;
  principal : option value;
  is_present : bool
}.

(** Modelled from the spec: the [Authorization()] of the field's
    [default_factory], which stands for a missing authorization: no
    subject, no metadata, and not present (section 7: a missing
    authorization at context construction is forbidden). *)
Definition Authorization_default : Authorization :=
  mkAuthorization None None false.

(** The dataclass [WebsocketContext] (lines 23-32).  Its [receive] and [send]
    fields hold the gateway's primitives ([Gateway.receive], [Gateway.send]);
    no method below calls them. *)
Record WebsocketContext : Type := mkWebsocketContext {
  scope : WebsocketScope;
  auth : Authorization;
  _header_cache : gmap bytes bytes;
  _db_response_idx : nat
}.

(** What the methods act on: the object itself, the attributes recorded on
    spans, and a probe on [scope.headers] that records, for every [for]
    loop started over it, how many entries the loop visited. *)
Record World : Type := mkWorld {
  self : WebsocketContext;
  ctx_spans : span_log;
  header_scans : list nat
}.

(** [for k, v in self.scope.headers: self._header_cache[k] = v;
    if k == x: return v] followed by [return None] (lines 55-60): the
    result, the cache and the number of entries visited. *)
Fixpoint scan_headers (x : bytes) (hs : list (bytes * bytes))
    (cache : gmap bytes bytes) (visited : nat)
  : option bytes * gmap bytes bytes * nat :=
  match hs with
  | [] => (None, cache, visited)
  | (k, v) :: rest =>
      let cache' := <[k := v]> cache in
      if decide (k = x) then (Some v, cache', S visited)
      else scan_headers x rest cache' (S visited)
  end.

Definition set_auth (a : Authorization) : M World unit :=
  modify (fun w =>
    mkWorld (mkWebsocketContext (scope (self w)) a (_header_cache (self w))
               (_db_response_idx (self w)))
            (ctx_spans w) (header_scans w)).

Section Methods.
(** The external collaborators: [get_signer_sub] of [latch_asgi/auth.py]
    (signature verification), the payload of the error raised by
    [unauthorized_if_none], and [dict_to_attrs] of latch_o11y with its
    [AttributesDict]. *)
Variable get_signer_sub : str -> Authorization.
Variable unauthorized_data : value.
Variable AttributesDict : Type.
Variable dict_to_attrs : AttributesDict -> str -> list (str * attribute_value).

(** Modelled from the spec: [Authorization.unauthorized_if_none] of
    [latch_asgi/auth.py] (section 4.3): "assert the Authorization is
    present - if not, the construction itself fails (propagates as an
    unauthorized/forbidden error)", a 403-equivalent (section 7). *)
Definition unauthorized_if_none (a : Authorization) : M World unit :=
  if is_present a then ret tt
  else raise (HTTPForbidden unauthorized_data []).

(** [header] (lines 48-60). *)
Definition header (x : str_or_bytes) : M World (option bytes) :=
  x <- encode_if_str encode_utf8 x;;
  fun w =>
    match _header_cache (self w) !! x with
    | Some v => (Returned (Some v), w)
    | None =>
        let '(res, cache, visited) :=
          scan_headers x (headers (scope (self w))) (_header_cache (self w)) 0 in
        (Returned res,
         mkWorld (mkWebsocketContext (scope (self w)) (auth (self w)) cache
                    (_db_response_idx (self w)))
                 (ctx_spans w) (header_scans w ++ [visited]))
    end.

(** [header_str] (lines 62-67). *)
Definition header_str (x : str_or_bytes) : M World (option str) :=
  res <- header x;;
  match res with
  | None => ret None
  | Some v => ret (Some (decode_latin1 v))
  end.

(** [__post_init__] (lines 34-46). *)
Definition __post_init__ : M World unit :=
  auth_header <- header_str (Str (U "authorization"));;
  match auth_header with
  | Some h => set_auth (get_signer_sub h)
  | None => ret tt
  end;;;
  a <- gets (fun w => auth (self w));;
  match oauth_sub a with
  | Some sub =>
      modify (fun w =>
        mkWorld (self w) (ctx_spans w ++ [(RequestSpan, U "enduser.id", AttrStr sub)])
                (header_scans w))
  | None => ret tt
  end;;;
  unauthorized_if_none a.

(** [WebsocketContext(scope, receive, send)]: the generated [__init__]
    sets the three [init=False] fields to their defaults and calls
    [__post_init__]. *)
Definition new_context (sc : WebsocketScope) : WebsocketContext :=
  mkWebsocketContext sc Authorization_default ∅ 0.

Definition new (sc : WebsocketScope) (sp : span_log) : outcome unit * World :=
  __post_init__ (mkWorld (new_context sc) sp []).

(** [add_request_span_attrs] (lines 69-70). *)
Definition add_request_span_attrs (data : AttributesDict) (prefix : str)
  : M World unit :=
  modify (fun w =>
    mkWorld (self w)
      (ctx_spans w ++ map (fun kv => (RequestSpan, kv.1, kv.2))
                     (dict_to_attrs data prefix))
      (header_scans w)).

(** [f"db.response.{self._db_response_idx}"] *)
Definition db_response_prefix (idx : nat) : str :=
  U "db.response." ++ str_of_nat idx.

(** [add_db_response] (lines 72-79). *)
Definition add_db_response (data : AttributesDict) : M World unit :=
  idx <- gets (fun w => _db_response_idx (self w));;
  add_request_span_attrs data (db_response_prefix idx);;;
  modify (fun w =>
    mkWorld (mkWebsocketContext (scope (self w)) (auth (self w))
               (_header_cache (self w)) (_db_response_idx (self w) + 1))
            (ctx_spans w) (header_scans w)).

(** Successive calls [add_db_response(d)] for [d] in [datas]. *)
Fixpoint add_db_responses (datas : list AttributesDict) : M World unit :=
  match datas with
  | [] => ret tt
  | d :: rest => add_db_response d;;; add_db_responses rest
  end.

End Methods.

End ContextWebsocket.
Export ContextWebsocket.

(* ===================================================================== *)
(** ** Vocabulary of the statements *)
(* ===================================================================== *)

Module Vocabulary.

(** The delivery [(b1, true), ..., (bn-1, true), (last, false)]. *)
Definition chunked (chunks : list bytes) (last : bytes) : list HTTPReceiveEvent :=
  map (fun x => HTTPRequestEvent x true) chunks ++ [HTTPRequestEvent last false].

(** Deliveries that all announce more body. *)
Definition partial (chunks : list bytes) : list HTTPReceiveEvent :=
  map (fun x => HTTPRequestEvent x true) chunks.

(** What reading one event records on the "read chunk" span. *)
Definition read_chunk_spans (msg : HTTPReceiveEvent) : span_log :=
  match msg with
  | HTTPRequestEvent body more_body =>
      [(TracerSpan "read chunk", U "size", AttrLen body);
       (TracerSpan "read chunk", U "more_body", AttrBool more_body)]
  | HTTPDisconnectEvent => []
  end.

(** The three bad-message errors of the websocket primitives. *)
Definition already_established : exn :=
  WebsocketBadMessage (PyStr (U "connection has already been established")) [].
Definition empty_message : exn :=
  WebsocketBadMessage (PyStr (U "empty message")) [].
Definition no_connection_request : exn :=
  WebsocketBadMessage
    (PyStr (U "cannot accept connection without connection request")) [].

Definition read_message_spans (x : bytes) : span_log :=
  [(TracerSpan "read websocket message", U "size", AttrLen x)].

(** A data event and the payload it stands for: its binary payload, or
    else its text payload in UTF-8. *)
Inductive carries : WebsocketReceiveEvent -> bytes -> Prop :=
| carries_bytes x text : carries (WebsocketReceiveEvent_ (Some x) text) x
| carries_text t x :
    encode_utf8 t = Some x -> carries (WebsocketReceiveEvent_ None (Some t)) x.

(** A text message and a binary message. *)
Definition text_msg (t : string) : WebsocketReceiveEvent :=
  WebsocketReceiveEvent_ None (Some (U t)).
Definition binary_msg (x : string) : WebsocketReceiveEvent :=
  WebsocketReceiveEvent_ (Some (B x)) None.

(** [k in self._header_cache] *)
Definition cached (w : World) (k : bytes) : Prop :=
  is_Some (_header_cache (self w) !! k).

(** The cache after [cache[k] = v] for every [(k, v)] of [hs], in order. *)
Definition memoize (cache : gmap bytes bytes) (hs : list (bytes * bytes))
  : gmap bytes bytes :=
  foldl (fun m kv => <[kv.1 := kv.2]> m) cache hs.

(** Keys in the namespace of a prefix: the prefix, a dot, the rest. *)
Definition in_namespace (prefix key : str) : Prop :=
  exists rest, key = prefix ++ U "." ++ rest.

Definition is_digit (c : codepoint) : Prop := (48 <= c <= 57)%N.

(** The encodings the senders apply, as partial functions. *)
Definition utf8 (x : str_or_bytes) : option bytes :=
  match x with
  | Str s => encode_utf8 s
  | Bytes y => Some y
  end.

Definition latin1 (x : str_or_bytes) : option bytes :=
  match x with
  | Str s => encode_latin1 s
  | Bytes y => Some y
  end.

Fixpoint wire_headers (hs : Headers) : option (list (bytes * bytes)) :=
  match hs with
  | [] => Some []
  | (k, v) :: rest =>
      match latin1 k, latin1 v, wire_headers rest with
      | Some k', Some v', Some r => Some ((k', v') :: r)
      | _, _, _ => None
      end
  end.

Definition content_type_header (content_type : option str_or_bytes)
  : option (list (bytes * bytes)) :=
  match content_type with
  | None => Some []
  | Some ct =>
      match latin1 ct with
      | Some x => Some [(B "Content-Type", x)]
      | None => None
      end
  end.

(** The ASCII decimal numeral of [n]. *)
Definition decimal (n : nat) : bytes :=
  B (NilZero.string_of_uint (Nat.to_uint n)).

(** The literal [{"a": 1}] and the seven bytes [{"a":1}]. *)
Definition json_a1 : value := PyDict [(U "a", PyInt 1)].
Definition body_a1 : bytes := B "{" ++ [x22] ++ B "a" ++ [x22] ++ B ":1}".

Section Recorded.
Variable AttributesDict : Type.
Variable dict_to_attrs : AttributesDict -> str -> list (str * attribute_value).

(** What the call number [idx] records on the request span. *)
Definition recorded (data : AttributesDict) (idx : nat) : span_log :=
  map (fun kv => (RequestSpan, kv.1, kv.2))
      (dict_to_attrs data (db_response_prefix idx)).

Fixpoint recorded_from (idx : nat) (datas : list AttributesDict) : span_log :=
  match datas with
  | [] => []
  | d :: rest => recorded d idx ++ recorded_from (S idx) rest
  end.
End Recorded.

(** Sample data for the examples. *)
Definition sample_scope : WebsocketScope :=
  mkScope [(B "host", B "example.org"); (B "authorization", B "Bearer t")].
Definition sample_world : World :=
  mkWorld (mkWebsocketContext sample_scope Authorization_default ∅ 0) [] [].
Definition anonymous_scope : WebsocketScope :=
  mkScope [(B "host", B "example.org")].

(** A signer that accepts the one credential [Bearer t]. *)
Definition sample_signer (h : str) : Authorization :=
  if decide (h = U "Bearer t") then mkAuthorization (Some (U "alice")) None true
  else Authorization_default.

(** A flat attribute dict and its dotted keys. *)
Definition sample_dict_to_attrs (d : list (str * attribute_value)) (prefix : str)
  : list (str * attribute_value) :=
  map (fun kv => (prefix ++ U "." ++ kv.1, kv.2)) d.

(** A codec and a validator for the examples: the only document is [1],
    and only [PyInt 0] is a valid [nat]. *)
Definition sample_parse (x : bytes) : option value :=
  if decide (x = B "1") then Some (PyInt 1) else None.
Definition sample_validate (v : value) : nat + string :=
  match v with
  | PyInt 0 => inl 0
  | _ => inr "expected 0"%string
  end.
Definition sample_json (e : string) : value := PyDict [(U "error", PyStr (U e))].

End Vocabulary.
Export Vocabulary.

(* ===================================================================== *)
(** ** Further notions *)
(* ===================================================================== *)

Module Notions.

(** A sender either returns after its two events, a start event with the
    given status and one body event that ends the response, or raises an
    encoding error with nothing sent; it never reads an event. *)
Definition all_or_nothing (status : HTTPStatus) (c : HTTPConn)
    (r : outcome unit * HTTPConn) : Prop :=
  inbox r.2 = inbox c /\
  ((r.1 = Returned tt /\
    exists hdrs body,
      outbox r.2 =
      outbox c ++ [HTTPResponseStartEvent status hdrs;
                   HTTPResponseBodyEvent body false]) \/
   ((r.1 = Raised UnicodeEncodeError \/ r.1 = Raised JSONEncodeError) /\
    outbox r.2 = outbox c)).

(** The number a decimal numeral stands for. *)
Definition parse_decimal (x : bytes) : option nat :=
  match NilZero.uint_of_string (string_of_list_byte x) with
  | Some d => Some (Nat.of_uint d)
  | None => None
  end.

(** Headers given as bytes. *)
Definition bytes_headers (l : list (bytes * bytes)) : Headers :=
  map (fun kv => (Bytes kv.1, Bytes kv.2)) l.

(** A signer whose Authorization is present and names no subject. *)
Definition subjectless_signer (h : str) : Authorization :=
  mkAuthorization None (Some (PyStr h)) true.

(** [isinstance(e, HTTPErrorResponse)] and
    [isinstance(e, WebsocketErrorResponse)], by the class statements of
    [framework.py] (lines 60-102): [WebsocketErrorResponse] derives from
    [HTTPErrorResponse], and the two connection-closed errors derive from
    [RuntimeError] only. *)
Definition is_HTTPErrorResponse (e : exn) : bool :=
  match e with
  | HTTPInternalServerError _ _ | HTTPBadRequest _ _ | HTTPForbidden _ _
  | WebsocketBadMessage _ _ | WebsocketInternalServerError _ _ => true
  | HTTPConnectionClosedError | WebsocketConnectionClosedError
  | UnicodeEncodeError | JSONEncodeError => false
  end.

Definition is_WebsocketErrorResponse (e : exn) : bool :=
  match e with
  | WebsocketBadMessage _ _ | WebsocketInternalServerError _ _ => true
  | HTTPInternalServerError _ _ | HTTPBadRequest _ _ | HTTPForbidden _ _
  | HTTPConnectionClosedError | WebsocketConnectionClosedError
  | UnicodeEncodeError | JSONEncodeError => false
  end.

(** Every cached value is the value of a header of that name. *)
Definition consistent (w : World) : Prop :=
  forall k v,
    _header_cache (self w) !! k = Some v -> (k, v) ∈ headers (scope (self w)).

(** The context and the probe on its header list, without the spans. *)
Definition same_context (w w' : World) : Prop :=
  self w' = self w /\ header_scans w' = header_scans w.

End Notions.
Export Notions.

(* ===================================================================== *)
(** ** The HTTP body reader *)
(* ===================================================================== *)

Module BodyReader.

Lemma read_chunk_cons res msg rest out sp :
  read_chunk res (mkConn (msg :: rest) out sp) =
  match msg with
  | HTTPRequestEvent body more_body =>
      (Returned (res ++ body, more_body),
       mkConn rest out (sp ++ read_chunk_spans msg))
  | HTTPDisconnectEvent => (Raised HTTPConnectionClosedError, mkConn rest out sp)
  end.
Proof. destruct msg; reflexivity. Qed.

Lemma receive_data_loop_S fuel res c :
  receive_data_loop (S fuel) res c =
  match read_chunk res c with
  | (Returned r, c') =>
      if r.2 then receive_data_loop fuel r.1 c' else (Returned r.1, c')
  | (Raised e, c') => (Raised e, c')
  | (Pending, c') => (Pending, c')
  end.
Proof.
  cbn [receive_data_loop]. unfold bind.
  destruct (read_chunk res c) as [[[r more]|e|] c']; try reflexivity.
  destruct more; reflexivity.
Qed.

(** The loop over a complete delivery. *)
Lemma receive_data_loop_chunked chunks : forall fuel res last rest out sp,
  length chunks < fuel ->
  receive_data_loop fuel res (mkConn (chunked chunks last ++ rest) out sp) =
  (Returned (res ++ concat chunks ++ last),
   mkConn rest out (sp ++ flat_map read_chunk_spans (chunked chunks last))).
Proof.
  induction chunks as [|x chunks IH]; intros fuel res last rest out sp Hfuel.
  - destruct fuel as [|fuel]; [lia|].
    rewrite receive_data_loop_S. cbn [chunked map app].
    rewrite read_chunk_cons. cbn. done.
  - destruct fuel as [|fuel]; [cbn in Hfuel; lia|].
    rewrite receive_data_loop_S.
    change (chunked (x :: chunks) last ++ rest)
      with (HTTPRequestEvent x true :: (chunked chunks last ++ rest)).
    rewrite read_chunk_cons. cbn [fst snd].
    rewrite IH by (cbn in Hfuel; lia).
    change (chunked (x :: chunks) last)
      with (HTTPRequestEvent x true :: chunked chunks last).
    cbn [flat_map concat]. by rewrite <- !app_assoc.
Qed.

(** The loop over a delivery cut short by a disconnect. *)
Lemma receive_data_loop_disconnect chunks : forall fuel res rest out sp,
  length chunks < fuel ->
  receive_data_loop fuel res
    (mkConn (partial chunks ++ HTTPDisconnectEvent :: rest) out sp) =
  (Raised HTTPConnectionClosedError,
   mkConn rest out (sp ++ flat_map read_chunk_spans (partial chunks))).
Proof.
  unfold partial.
  induction chunks as [|x chunks IH]; intros fuel res rest out sp Hfuel;
    (destruct fuel as [|fuel]; [cbn in Hfuel; lia|]);
    rewrite receive_data_loop_S; cbn [map app]; rewrite read_chunk_cons.
  - cbn. by rewrite app_nil_r.
  - cbn [fst snd]. rewrite IH by (cbn in Hfuel; lia).
    cbn [flat_map]. by rewrite <- !app_assoc.
Qed.

(** The loop over a delivery that stops before its last chunk. *)
Lemma receive_data_loop_starved chunks : forall fuel res out sp,
  (receive_data_loop fuel res (mkConn (partial chunks) out sp)).1 = Pending.
Proof.
  unfold partial.
  induction chunks as [|x chunks IH]; intros fuel res out sp;
    (destruct fuel as [|fuel]; [reflexivity|]);
    rewrite receive_data_loop_S; cbn [map].
  - reflexivity.
  - rewrite read_chunk_cons. cbn [fst snd]. apply IH.
Qed.

(** Whenever the loop returns it has consumed a complete delivery. *)
Lemma receive_data_loop_returned fuel : forall res c r c',
  receive_data_loop fuel res c = (Returned r, c') ->
  exists chunks last,
    inbox c = chunked chunks last ++ inbox c' /\
    outbox c' = outbox c /\
    r = res ++ concat chunks ++ last.
Proof.
  induction fuel as [|fuel IH]; intros res [inb out sp] r c' H; [discriminate|].
  rewrite receive_data_loop_S in H.
  destruct inb as [|msg inb]; [discriminate|].
  rewrite read_chunk_cons in H.
  destruct msg as [body [|]|]; cbn [fst snd] in H.
  - apply IH in H as (chunks & last & Hin & Hout & ->).
    exists (body :: chunks), last. split; [|split].
    + unfold chunked in *. cbn in *. by rewrite Hin.
    + exact Hout.
    + cbn. by rewrite <- !app_assoc.
  - injection H as <- <-. exists [], body. cbn. done.
  - discriminate.
Qed.

(** The fuel is only a bound: any amount above the number of delivered
    events gives the same run. *)
Lemma receive_data_loop_fuel fuel : forall fuel' res c,
  length (inbox c) < fuel -> length (inbox c) < fuel' ->
  receive_data_loop fuel res c = receive_data_loop fuel' res c.
Proof.
  induction fuel as [|fuel IH]; intros fuel' res [inb out sp] H H'; [lia|].
  destruct fuel' as [|fuel']; [lia|].
  rewrite !receive_data_loop_S.
  destruct inb as [|msg inb]; [reflexivity|].
  rewrite read_chunk_cons.
  destruct msg as [body [|]|]; cbn [fst snd]; try reflexivity.
  apply IH; cbn in *; lia.
Qed.

Lemma receive_data_unfold c :
  receive_data c =
  match receive_data_loop (S (length (inbox c))) [] c with
  | (Returned res, c') =>
      (Returned res,
       mkConn (inbox c') (outbox c')
         (Gateway.spans c' ++
          [(RequestSpan, U "http.request_content_length", AttrLen res)]))
  | (Raised e, c') => (Raised e, c')
  | (Pending, c') => (Pending, c')
  end.
Proof.
  unfold receive_data, bind.
  by destruct (receive_data_loop _ _ _) as [[res|e|] c'].
Qed.

Lemma receive_data_chunked chunks last rest out sp :
  receive_data (mkConn (chunked chunks last ++ rest) out sp) =
  (Returned (concat chunks ++ last),
   mkConn rest out
     (sp ++ flat_map read_chunk_spans (chunked chunks last) ++
      [(RequestSpan, U "http.request_content_length",
        AttrLen (concat chunks ++ last))])).
Proof.
  rewrite receive_data_unfold. cbn [inbox].
  rewrite receive_data_loop_chunked.
  - cbn. by rewrite <- app_assoc.
  - unfold chunked. rewrite !length_app, length_map. cbn. lia.
Qed.

Lemma receive_data_returned c res c' :
  receive_data c = (Returned res, c') ->
  exists chunks last,
    inbox c = chunked chunks last ++ inbox c' /\ res = concat chunks ++ last.
Proof.
  rewrite receive_data_unfold.
  destruct (receive_data_loop _ _ _) as [[r|e|] c1] eqn:Hloop; try discriminate.
  intros [= <- <-].
  apply receive_data_loop_returned in Hloop as (chunks & last & Hin & _ & ->).
  by exists chunks, last.
Qed.

Lemma receive_data_disconnect chunks rest out sp :
  receive_data (mkConn (partial chunks ++ HTTPDisconnectEvent :: rest) out sp) =
  (Raised HTTPConnectionClosedError,
   mkConn rest out (sp ++ flat_map read_chunk_spans (partial chunks))).
Proof.
  rewrite receive_data_unfold. cbn [inbox].
  rewrite receive_data_loop_disconnect; [done|].
  unfold partial. rewrite !length_app, length_map. cbn. lia.
Qed.

(** C1: for every delivery [(b1, true), ..., (bn, false)] [receive_data]
    returns [b1 + ... + bn] in delivery order, having consumed exactly these
    events; it returns only after a chunk whose [more_body] is false,
    all chunks before it announcing more; and an empty last chunk ends the
    read like any other. *)
Theorem receive_data_concatenates :
  (forall chunks last rest out sp,
     receive_data (mkConn (chunked chunks last ++ rest) out sp) =
     (Returned (concat chunks ++ last),
      mkConn rest out
        (sp ++ flat_map read_chunk_spans (chunked chunks last) ++
         [(RequestSpan, U "http.request_content_length",
           AttrLen (concat chunks ++ last))]))) /\
  (forall c res c',
     receive_data c = (Returned res, c') ->
     exists chunks last,
       inbox c = chunked chunks last ++ inbox c' /\
       res = concat chunks ++ last) /\
  (forall chunks out sp, (receive_data (mkConn (partial chunks) out sp)).1 = Pending) /\
  (forall chunks rest out sp,
     (receive_data (mkConn (chunked chunks [] ++ rest) out sp)).1 =
     Returned (concat chunks)).
Proof.
  split_and!.
  - apply receive_data_chunked.
  - apply receive_data_returned.
  - intros chunks out sp. rewrite receive_data_unfold.
    pose proof (receive_data_loop_starved chunks
                  (S (length (inbox (mkConn (partial chunks) out sp)))) [] out sp) as H.
    by destruct (receive_data_loop _ _ _) as [[r|e|] c1].
  - intros chunks rest out sp. rewrite receive_data_chunked. cbn.
    by rewrite app_nil_r.
Qed.

(** Three chunks, the last one empty, followed by the next request's
    event, which is left in place. *)
Lemma receive_data_concatenates_witness :
  receive_data
    (mkConn [HTTPRequestEvent (B "ab") true; HTTPRequestEvent (B "cd") true;
             HTTPRequestEvent [] false; HTTPDisconnectEvent] [] []) =
  (Returned (B "abcd"),
   mkConn [HTTPDisconnectEvent] []
     (flat_map read_chunk_spans (chunked [B "ab"; B "cd"] []) ++
      [(RequestSpan, U "http.request_content_length", AttrLen (B "abcd"))])).
Proof.
  exact (proj1 receive_data_concatenates [B "ab"; B "cd"] []
           [HTTPDisconnectEvent] [] []).
Defined.

End BodyReader.

(* ===================================================================== *)
(** ** Encoders *)
(* ===================================================================== *)

Module Encoding.

Lemma encode_latin1_U s : encode_latin1 (U s) = Some (B s).
Proof.
  unfold U, B. induction (list_byte_of_string s) as [|x l IH]; [done|].
  cbn. by rewrite Byte.of_to_N, IH.
Qed.

(** [str(n).encode("latin-1")] never fails. *)
Lemma encode_latin1_str_of_nat n : encode_latin1 (str_of_nat n) = Some (decimal n).
Proof. apply encode_latin1_U. Qed.

Lemma encode_if_str_spec {S} enc x (s : S) :
  encode_if_str enc x s =
  match (match x with Str t => enc t | Bytes y => Some y end) with
  | Some y => (Returned y, s)
  | None => (Raised UnicodeEncodeError, s)
  end.
Proof. destruct x as [t|y]; [|done]. cbn. by destruct (enc t). Qed.

(** The header loop either appends every pair, encoded, or raises. *)
Lemma append_headers_spec {S} headers : forall acc (s : S),
  append_headers headers acc s =
  match wire_headers headers with
  | Some l => (Returned (acc ++ l), s)
  | None => (Raised UnicodeEncodeError, s)
  end.
Proof.
  induction headers as [|[k v] rest IH]; intros acc s;
    cbn [append_headers wire_headers].
  - cbn. by rewrite app_nil_r.
  - unfold bind at 1. rewrite encode_if_str_spec. fold (latin1 k).
    destruct (latin1 k) as [k'|]; [|done].
    unfold bind at 1. rewrite encode_if_str_spec. fold (latin1 v).
    destruct (latin1 v) as [v'|]; [|done].
    rewrite IH. destruct (wire_headers rest); [|done].
    by rewrite <- app_assoc.
Qed.

Lemma U_String c s : U (String c s) = Byte.to_N (byte_of_ascii c) :: U s.
Proof. reflexivity. Qed.

Lemma U_inj s1 s2 : U s1 = U s2 -> s1 = s2.
Proof.
  unfold U. intros H.
  rewrite <- (string_of_list_byte_of_string s1),
          <- (string_of_list_byte_of_string s2).
  f_equal. revert H. generalize (list_byte_of_string s1) (list_byte_of_string s2).
  induction l as [|x l IH]; intros [|y l'] H; try discriminate; [done|].
  cbn in H. injection H as Hx Hl. f_equal; [|by apply IH].
  apply (f_equal Byte.of_N) in Hx. rewrite !Byte.of_to_N in Hx. congruence.
Qed.

Lemma string_of_uint_digits d :
  Forall is_digit (U (NilEmpty.string_of_uint d)).
Proof.
  induction d; cbn [NilEmpty.string_of_uint]; [constructor | ..];
    rewrite U_String; (constructor; [vm_compute; split; discriminate | assumption]).
Qed.

(** [str(n)] is made of decimal digits only. *)
Lemma str_of_nat_digits n : Forall is_digit (str_of_nat n).
Proof.
  unfold str_of_nat, NilZero.string_of_uint.
  destruct (Nat.to_uint n) eqn:E; try apply string_of_uint_digits.
  repeat constructor; vm_compute; discriminate.
Qed.

Lemma to_uint_nonnil n : Nat.to_uint n <> Decimal.Nil.
Proof.
  intros H. pose proof (DecimalNat.Unsigned.to_of (Nat.to_uint n)) as E.
  rewrite DecimalNat.Unsigned.of_to, H in E. discriminate E.
Qed.

(** Different numbers have different numerals. *)
Lemma str_of_nat_inj i j : str_of_nat i = str_of_nat j -> i = j.
Proof.
  unfold str_of_nat. intros H%U_inj.
  apply (f_equal NilZero.uint_of_string) in H.
  rewrite !NilZero.usu in H by apply to_uint_nonnil. injection H as H.
  by apply DecimalNat.Unsigned.to_uint_inj.
Qed.

(** Two numerals followed by a dot and anything: the numerals agree. *)
Lemma digits_dot_prefix_free (a : str) : forall b r r',
  Forall is_digit a -> Forall is_digit b ->
  a ++ U "." ++ r = b ++ U "." ++ r' -> a = b.
Proof.
  assert (Hdot : ~ is_digit 46%N) by (unfold is_digit; lia).
  induction a as [|x a IH]; intros [|y b] r r' Ha Hb H; [done|..].
  - injection H as <- _. by apply Forall_cons in Hb as [? _].
  - injection H as -> _. by apply Forall_cons in Ha as [? _].
  - injection H as -> H.
    apply Forall_cons in Ha as [_ Ha]. apply Forall_cons in Hb as [_ Hb].
    f_equal. by apply (IH b r r').
Qed.

End Encoding.

(* ===================================================================== *)
(** ** The websocket session *)
(* ===================================================================== *)

Module Websocket.

(** [receive_websocket_data] by the event it is delivered. *)
Lemma receive_websocket_data_cons msg rest out sp :
  receive_websocket_data (mkConn (msg :: rest) out sp) =
  match msg with
  | WebsocketConnectEvent => (Raised already_established, mkConn rest out sp)
  | WebsocketDisconnectEvent =>
      (Raised WebsocketConnectionClosedError, mkConn rest out sp)
  | WebsocketReceiveEvent_ (Some x) _ =>
      (Returned x, mkConn rest out (sp ++ read_message_spans x))
  | WebsocketReceiveEvent_ None (Some t) =>
      match encode_utf8 t with
      | Some x => (Returned x, mkConn rest out (sp ++ read_message_spans x))
      | None => (Raised UnicodeEncodeError, mkConn rest out sp)
      end
  | WebsocketReceiveEvent_ None None =>
      (Raised empty_message, mkConn rest out sp)
  end.
Proof.
  destruct msg as [|[x|] [t|]|]; try reflexivity.
  unfold receive_websocket_data, bind, receive; cbn.
  destruct (encode_utf8 t); reflexivity.
Qed.

Lemma receive_websocket_data_nil out sp :
  receive_websocket_data (mkConn [] out sp) = (Pending, mkConn [] out sp).
Proof. reflexivity. Qed.

Lemma receive_websocket_data_carries msg x rest out sp :
  carries msg x ->
  receive_websocket_data (mkConn (msg :: rest) out sp) =
  (Returned x, mkConn rest out (sp ++ read_message_spans x)).
Proof.
  intros [y text|t y Ht]; rewrite receive_websocket_data_cons; [done|].
  by rewrite Ht.
Qed.

Lemma receive_websocket_data_returned c x c' :
  receive_websocket_data c = (Returned x, c') ->
  exists msg, inbox c = msg :: inbox c' /\ carries msg x.
Proof.
  destruct c as [[|msg rest] out sp]; [discriminate|].
  rewrite receive_websocket_data_cons.
  destruct msg as [|[y|] [t|]|]; try discriminate.
  - intros [= <- <-]. eexists; split; [done|constructor].
  - intros [= <- <-]. eexists; split; [done|constructor].
  - destruct (encode_utf8 t) as [y|] eqn:Ht; [|discriminate].
    intros [= <- <-]. eexists; split; [done|by constructor].
Qed.

Lemma receive_websocket_data_closed c c' :
  receive_websocket_data c = (Raised WebsocketConnectionClosedError, c') ->
  inbox c = WebsocketDisconnectEvent :: inbox c'.
Proof.
  destruct c as [[|msg rest] out sp]; [discriminate|].
  rewrite receive_websocket_data_cons.
  destruct msg as [|[y|] [t|]|]; try discriminate.
  - destruct (encode_utf8 t); discriminate.
  - by intros [= <-].
Qed.

Lemma async_for_S fuel c :
  async_for (S fuel) c =
  match anext c with
  | (Yielded x, c') =>
      let '(xs, r, c'') := async_for fuel c' in (x :: xs, r, c'')
  | (r, c') => ([], r, c')
  end.
Proof. reflexivity. Qed.

(** The consumer receives the payloads of the data events that come first,
    and then what the generator makes of the event after them. *)
Lemma async_for_yields msgs : forall xs fuel stop rest out sp,
  Forall2 carries msgs xs ->
  length msgs < fuel ->
  (forall x, ~ carries stop x) ->
  async_for fuel (mkConn (msgs ++ stop :: rest) out sp) =
  (xs,
   (anext (mkConn (stop :: rest) out
             (sp ++ flat_map read_message_spans xs))).1,
   (anext (mkConn (stop :: rest) out
             (sp ++ flat_map read_message_spans xs))).2).
Proof.
  induction msgs as [|msg msgs IH]; intros xs fuel stop rest out sp Hxs Hfuel Hstop;
    (destruct fuel as [|fuel]; [cbn in Hfuel; lia|]); rewrite async_for_S.
  - apply Forall2_nil_inv_l in Hxs as ->. cbn [app flat_map]. rewrite app_nil_r.
    destruct (anext _) as [[x| | |] c'] eqn:Hn; try reflexivity.
    exfalso. unfold anext in Hn.
    destruct (receive_websocket_data _) as [[y|[]|] c''] eqn:Hr; try discriminate.
    apply receive_websocket_data_returned in Hr as (m & Hm & Hc).
    cbn in Hm. injection Hm as <- _. by apply (Hstop y).
  - apply Forall2_cons_inv_l in Hxs as (x & xs' & Hx & Hxs & ->).
    cbn [app]. unfold anext at 1.
    rewrite (receive_websocket_data_carries _ _ _ _ _ Hx).
    rewrite (IH xs') by (try done; cbn in Hfuel; lia).
    cbn [flat_map]. by rewrite <- !app_assoc.
Qed.

(** A silent end of the iteration comes from a disconnect event, after
    data events only. *)
Lemma async_for_stopped fuel : forall c xs c',
  async_for fuel c = (xs, StopAsyncIteration, c') ->
  exists msgs,
    inbox c = msgs ++ WebsocketDisconnectEvent :: inbox c' /\
    Forall2 carries msgs xs.
Proof.
  induction fuel as [|fuel IH]; intros c xs c' H; [discriminate|].
  rewrite async_for_S in H. unfold anext in H.
  destruct (receive_websocket_data c) as [[x|e|] c1] eqn:Hr.
  - destruct (async_for fuel c1) as [[xs1 r1] c2] eqn:Hrun.
    injection H as <- -> ->.
    apply IH in Hrun as (msgs & Hin & Hall).
    apply receive_websocket_data_returned in Hr as (msg & Hc & Hmsg).
    exists (msg :: msgs). split; [by rewrite Hc, Hin | by constructor].
  - destruct e; try discriminate. injection H as <- <-.
    exists []. split; [by apply receive_websocket_data_closed | constructor].
  - discriminate.
Qed.

(** The fuel is only a bound: any amount above the number of delivered
    events gives the same run. *)
Lemma async_for_fuel fuel : forall fuel' c,
  length (inbox c) < fuel -> length (inbox c) < fuel' ->
  async_for fuel c = async_for fuel' c.
Proof.
  induction fuel as [|fuel IH]; intros fuel' [inb out sp] H H'; [lia|].
  destruct fuel' as [|fuel']; [lia|].
  rewrite !async_for_S. unfold anext.
  destruct inb as [|msg inb]; [reflexivity|].
  rewrite receive_websocket_data_cons.
  destruct msg as [|[x|] [t|]|]; try reflexivity.
  - rewrite (IH fuel') by (cbn in *; lia). reflexivity.
  - rewrite (IH fuel') by (cbn in *; lia). reflexivity.
  - destruct (encode_utf8 t); [|reflexivity].
    rewrite (IH fuel') by (cbn in *; lia). reflexivity.
Qed.

Lemma not_carries_connect x : ~ carries WebsocketConnectEvent x.
Proof. inversion 1. Qed.

Lemma not_carries_disconnect x : ~ carries WebsocketDisconnectEvent x.
Proof. inversion 1. Qed.

Lemma not_carries_empty x : ~ carries (WebsocketReceiveEvent_ None None) x.
Proof. inversion 1. Qed.

Lemma iter_yields msgs xs stop rest out sp :
  Forall2 carries msgs xs ->
  (forall x, ~ carries stop x) ->
  (receive_websocket_data_iter (mkConn (msgs ++ stop :: rest) out sp)).1 =
  (xs, (anext (mkConn (stop :: rest) out
                 (sp ++ flat_map read_message_spans xs))).1).
Proof.
  intros Hxs Hstop. unfold receive_websocket_data_iter.
  rewrite (async_for_yields msgs xs) by
    (try done; cbn; rewrite length_app; cbn; lia).
  done.
Qed.

(** C7: what [receive_websocket_data] makes of the event it receives: a
    connect event is a bad message; a data event gives its binary payload
    when it has one, else its text payload encoded as UTF-8, and is a bad
    message ("empty message") when it has neither; both bad messages carry
    the status 400. *)
Theorem receive_websocket_data_cases (rest : list WebsocketReceiveEvent)
    (out : list WebsocketSendEvent_) (sp : span_log) :
  (receive_websocket_data (mkConn (WebsocketConnectEvent :: rest) out sp)).1 =
    Raised already_established /\
  (forall x text,
     (receive_websocket_data
        (mkConn (WebsocketReceiveEvent_ (Some x) text :: rest) out sp)).1 =
     Returned x) /\
  (forall t,
     (receive_websocket_data
        (mkConn (WebsocketReceiveEvent_ None (Some t) :: rest) out sp)).1 =
     match encode_utf8 t with
     | Some x => Returned x
     | None => Raised UnicodeEncodeError
     end) /\
  (receive_websocket_data
     (mkConn (WebsocketReceiveEvent_ None None :: rest) out sp)).1 =
    Raised empty_message /\
  status already_established = Some BAD_REQUEST /\
  status empty_message = Some BAD_REQUEST.
Proof.
  split_and!; try reflexivity.
  intros t. rewrite receive_websocket_data_cons. by destruct (encode_utf8 t).
Qed.

(** A text message whose payload needs two and three bytes in UTF-8. *)
Lemma receive_websocket_data_cases_witness :
  (receive_websocket_data
     (mkConn [WebsocketReceiveEvent_ None (Some [0xE9%N; 0x20AC%N])] [] [])).1 =
  Returned [xc3; xa9; xe2; x82; xac].
Proof.
  exact (proj1 (proj2 (proj2 (receive_websocket_data_cases [] [] [])))
           [0xE9%N; 0x20AC%N]).
Defined.

(** C10: the generator ends silently exactly when the receive it awaits
    raises [WebsocketConnectionClosedError]; any other error of that
    receive comes out of the generator. After data events, a disconnect
    ends the sequence, while a connect event or an empty message raises
    their bad-message error to the consumer. *)
Theorem iter_stops_on_closed_only :
  (forall c,
     (anext c).1 = StopAsyncIteration <->
     (receive_websocket_data c).1 = Raised WebsocketConnectionClosedError) /\
  (forall c e,
     (receive_websocket_data c).1 = Raised e ->
     e <> WebsocketConnectionClosedError ->
     (anext c).1 = Propagated e) /\
  (forall msgs xs rest out sp,
     Forall2 carries msgs xs ->
     (receive_websocket_data_iter
        (mkConn (msgs ++ WebsocketDisconnectEvent :: rest) out sp)).1 =
       (xs, StopAsyncIteration) /\
     (receive_websocket_data_iter
        (mkConn (msgs ++ WebsocketConnectEvent :: rest) out sp)).1 =
       (xs, Propagated already_established) /\
     (receive_websocket_data_iter
        (mkConn (msgs ++ WebsocketReceiveEvent_ None None :: rest) out sp)).1 =
       (xs, Propagated empty_message)) /\
  (forall c,
     (receive_websocket_data_iter c).1.2 = StopAsyncIteration ->
     exists msgs,
       inbox c =
         msgs ++ WebsocketDisconnectEvent
              :: inbox (receive_websocket_data_iter c).2 /\
       Forall2 carries msgs (receive_websocket_data_iter c).1.1).
Proof.
  split_and!.
  - intros c. unfold anext.
    destruct (receive_websocket_data c) as [[x|[]|] c']; cbn; split;
      (done || discriminate).
  - intros c e He Hne. unfold anext.
    destruct (receive_websocket_data c) as [[x|e'|] c']; cbn in *;
      try discriminate.
    injection He as ->. by destruct e.
  - intros msgs xs rest out sp Hxs. split_and!.
    + by rewrite (iter_yields msgs xs) by (done || apply not_carries_disconnect).
    + by rewrite (iter_yields msgs xs) by (done || apply not_carries_connect).
    + by rewrite (iter_yields msgs xs) by (done || apply not_carries_empty).
  - intros c H. unfold receive_websocket_data_iter in *.
    destruct (async_for _ c) as [[xs r] c'] eqn:Hrun. cbn [fst snd] in *. subst r.
    by apply async_for_stopped in Hrun.
Qed.

(** A connect event after one message: the message is yielded, then the
    bad-message error reaches the consumer. *)
Lemma iter_stops_on_closed_only_witness :
  (receive_websocket_data_iter
     (mkConn ([text_msg "a"] ++ WebsocketConnectEvent :: []) [] [])).1 =
  ([B "a"], Propagated already_established).
Proof.
  refine (proj1 (proj2 (proj1 (proj2 (proj2 iter_stops_on_closed_only))
            [text_msg "a"] [B "a"] [] [] [] _))).
  repeat constructor.
Defined.

(** C4: a disconnect that arrives before the chunk that completes the body
    makes [receive_data] raise [HTTPConnectionClosedError], whatever was
    read so far; a disconnect makes [receive_websocket_data] raise
    [WebsocketConnectionClosedError]; and the generator over
    [msg("a"), msg("b"), disconnect] yields "a", then "b", and ends
    without raising, for text and for binary messages. *)
Theorem disconnect_closes (rest : list WebsocketReceiveEvent)
    (out : list WebsocketSendEvent_) (sp : span_log) :
  (forall chunks rest' out' sp',
     receive_data
       (mkConn (partial chunks ++ HTTPDisconnectEvent :: rest') out' sp') =
     (Raised HTTPConnectionClosedError,
      mkConn rest' out' (sp' ++ flat_map read_chunk_spans (partial chunks)))) /\
  receive_websocket_data (mkConn (WebsocketDisconnectEvent :: rest) out sp) =
    (Raised WebsocketConnectionClosedError, mkConn rest out sp) /\
  (receive_websocket_data_iter
     (mkConn (text_msg "a" :: text_msg "b" :: WebsocketDisconnectEvent :: rest)
        out sp)).1 = ([B "a"; B "b"], StopAsyncIteration) /\
  (receive_websocket_data_iter
     (mkConn (binary_msg "a" :: binary_msg "b" :: WebsocketDisconnectEvent :: rest)
        out sp)).1 = ([B "a"; B "b"], StopAsyncIteration) /\
  inbox (receive_websocket_data_iter
           (mkConn (text_msg "a" :: text_msg "b" :: WebsocketDisconnectEvent :: rest)
              out sp)).2 = rest.
Proof.
  split_and!.
  - apply BodyReader.receive_data_disconnect.
  - reflexivity.
  - apply (iter_yields [text_msg "a"; text_msg "b"] [B "a"; B "b"]
             WebsocketDisconnectEvent).
    + repeat constructor.
    + apply not_carries_disconnect.
  - apply (iter_yields [binary_msg "a"; binary_msg "b"] [B "a"; B "b"]
             WebsocketDisconnectEvent).
    + repeat constructor.
    + apply not_carries_disconnect.
  - unfold receive_websocket_data_iter. cbn [inbox length].
    change (text_msg "a" :: text_msg "b" :: WebsocketDisconnectEvent :: rest)
      with ([text_msg "a"; text_msg "b"] ++ WebsocketDisconnectEvent :: rest).
    rewrite (async_for_yields [text_msg "a"; text_msg "b"] [B "a"; B "b"] _
               WebsocketDisconnectEvent);
      [reflexivity | repeat constructor | cbn; lia | apply not_carries_disconnect].
Qed.

Lemma accept_cons subprotocol headers msg rest out sp :
  accept_websocket_connection subprotocol headers (mkConn (msg :: rest) out sp) =
  match msg with
  | WebsocketConnectEvent =>
      match wire_headers headers with
      | Some l =>
          (Returned tt,
           mkConn rest (out ++ [WebsocketAcceptEvent subprotocol l]) sp)
      | None => (Raised UnicodeEncodeError, mkConn rest out sp)
      end
  | _ => (Raised no_connection_request, mkConn rest out sp)
  end.
Proof.
  destruct msg as [|x t|]; try reflexivity.
  unfold accept_websocket_connection, bind at 1, receive. cbn [inbox outbox Gateway.spans].
  unfold bind. rewrite Encoding.append_headers_spec.
  by destruct (wire_headers headers).
Qed.

(** With no event to receive, [accept_websocket_connection] stays suspended
    and sends nothing. *)
Lemma accept_awaits_event subprotocol headers out sp :
  accept_websocket_connection subprotocol headers (mkConn [] out sp) =
  (Pending, mkConn [] out sp).
Proof. reflexivity. Qed.

(** C6: when the event [accept_websocket_connection] receives is not a
    connect event, the call raises the bad-message error (status 400) and
    has sent nothing; so on a connection whose connect event is followed by
    another event, as the gateway delivers only one connect event, a first
    call sends the accept event and a second call in a row raises the
    bad-message error, sending nothing more. *)
Theorem accept_requires_connect (msg : WebsocketReceiveEvent)
    (rest : list WebsocketReceiveEvent) (out : list WebsocketSendEvent_)
    (sp : span_log) (subprotocol subprotocol' : option str)
    (headers headers' : Headers) (l : list (bytes * bytes)) :
  msg <> WebsocketConnectEvent ->
  wire_headers headers' = Some l ->
  accept_websocket_connection subprotocol headers (mkConn (msg :: rest) out sp) =
    (Raised no_connection_request, mkConn rest out sp) /\
  status no_connection_request = Some BAD_REQUEST /\
  bind (accept_websocket_connection subprotocol' headers')
       (fun _ => accept_websocket_connection subprotocol headers)
       (mkConn (WebsocketConnectEvent :: msg :: rest) out sp) =
    (Raised no_connection_request,
     mkConn rest (out ++ [WebsocketAcceptEvent subprotocol' l]) sp).
Proof.
  intros Hmsg Hl.
  assert (Hsecond : forall out',
    accept_websocket_connection subprotocol headers (mkConn (msg :: rest) out' sp) =
    (Raised no_connection_request, mkConn rest out' sp)).
  { intros out'. rewrite accept_cons. by destruct msg. }
  split_and!; [apply Hsecond | reflexivity |].
  unfold bind. rewrite accept_cons, Hl. apply Hsecond.
Qed.

(** A connect event followed by a text message; the first call sends one
    header, given as [str]. *)
Lemma accept_requires_connect_witness :
  accept_websocket_connection None [] (mkConn [text_msg "hi"] [] []) =
    (Raised no_connection_request, mkConn [] [] []) /\
  status no_connection_request = Some BAD_REQUEST /\
  bind (accept_websocket_connection (Some (U "chat"))
          [(Str (U "x-id"), Bytes (B "7"))])
       (fun _ => accept_websocket_connection None [])
       (mkConn [WebsocketConnectEvent; text_msg "hi"] [] []) =
    (Raised no_connection_request,
     mkConn [] [WebsocketAcceptEvent (Some (U "chat")) [(B "x-id", B "7")]] []).
Proof.
  apply (accept_requires_connect (text_msg "hi") [] [] [] None (Some (U "chat"))
           [] [(Str (U "x-id"), Bytes (B "7"))] [(B "x-id", B "7")]).
  - discriminate.
  - reflexivity.
Defined.

End Websocket.

(* ===================================================================== *)
(** ** The HTTP senders and [receive_class] *)
(* ===================================================================== *)

Module Http.

Lemma send_http_data_sent status data content_type headers body hs cth inb out sp :
  utf8 data = Some body ->
  wire_headers headers = Some hs ->
  content_type_header content_type = Some cth ->
  send_http_data status data content_type headers (mkConn inb out sp) =
  (Returned tt,
   mkConn inb
     (out ++ [HTTPResponseStartEvent status
                ((B "Content-Length", decimal (length body)) :: hs ++ cth);
              HTTPResponseBodyEvent body false])
     (sp ++ [(TracerSpan "send_http_data", U "size", AttrLen body);
             (RequestSpan, U "http.response_content_length", AttrLen body)])).
Proof.
  intros Hbody Hhs Hct. unfold send_http_data.
  unfold bind at 1. rewrite Encoding.encode_if_str_spec. fold (utf8 data).
  rewrite Hbody.
  unfold bind at 1. cbn [set_attribute modify].
  unfold bind at 1. rewrite Encoding.encode_latin1_str_of_nat. cbn [encoded ret].
  unfold bind at 1. rewrite Encoding.append_headers_spec, Hhs.
  destruct content_type as [ct|]; cbn in Hct.
  - unfold bind at 1 2. rewrite Encoding.encode_if_str_spec. fold (latin1 ct).
    destruct (latin1 ct) as [x|]; [|done]. injection Hct as <-.
    unfold bind, send, set_attribute, modify; cbn. by rewrite <- !app_assoc.
  - injection Hct as <-. unfold bind, send, set_attribute, modify, ret; cbn.
    by rewrite <- !app_assoc, !app_nil_r.
Qed.

(** A header that cannot be encoded as Latin-1 makes the sender raise
    before it has sent anything. *)
Lemma send_http_data_unencodable status body content_type headers inb out sp :
  wire_headers headers = None ->
  send_http_data status (Bytes body) content_type headers (mkConn inb out sp) =
  (Raised UnicodeEncodeError,
   mkConn inb out (sp ++ [(TracerSpan "send_http_data", U "size", AttrLen body)])).
Proof.
  intros Hhs. unfold send_http_data.
  unfold bind at 1. cbn [encode_if_str ret].
  unfold bind at 1. cbn [set_attribute modify].
  unfold bind at 1. rewrite Encoding.encode_latin1_str_of_nat. cbn [encoded ret].
  unfold bind at 1. by rewrite Encoding.append_headers_spec, Hhs.
Qed.

Section Json.
Variable dumps : value -> option bytes.

Lemma send_json_sent status data content_type headers body hs ct inb out sp :
  dumps data = Some body ->
  wire_headers headers = Some hs ->
  encode_latin1 content_type = Some ct ->
  send_json dumps status data content_type headers (mkConn inb out sp) =
  (Returned tt,
   mkConn inb
     (out ++ [HTTPResponseStartEvent status
                ((B "Content-Length", decimal (length body))
                   :: hs ++ [(B "Content-Type", ct)]);
              HTTPResponseBodyEvent body false])
     (sp ++ [(TracerSpan "send_http_data", U "size", AttrLen body);
             (RequestSpan, U "http.response_content_length", AttrLen body)])).
Proof.
  intros Hbody Hhs Hct. unfold send_json. rewrite Hbody.
  apply send_http_data_sent; [done | done |]. cbn. by rewrite Hct.
Qed.

(** C3 (amended): when the payload, the caller's headers and the content
    type can be encoded, [send_http_data] sends exactly two events: a start
    event with the status and the headers, which begin with Content-Length,
    before any header of the caller, its value the decimal byte length of
    the payload; then one body event with the whole payload and
    [more_body] false. [send_json] does so with the bytes [dumps] gives;
    for [{"a": 1}] serialized as [{"a":1}] the Content-Length is 7. *)
Theorem send_http_data_two_events (status : HTTPStatus) (data : str_or_bytes)
    (content_type : option str_or_bytes) (headers : Headers) (body : bytes)
    (hs cth : list (bytes * bytes)) (inb : list HTTPReceiveEvent)
    (out : list HTTPSendEvent) (sp : span_log) :
  utf8 data = Some body ->
  wire_headers headers = Some hs ->
  content_type_header content_type = Some cth ->
  outbox (send_http_data status data content_type headers (mkConn inb out sp)).2 =
    out ++ [HTTPResponseStartEvent status
              ((B "Content-Length", decimal (length body)) :: hs ++ cth);
            HTTPResponseBodyEvent body false] /\
  (send_http_data status data content_type headers (mkConn inb out sp)).1 =
    Returned tt /\
  (forall v ct ctb,
     dumps v = Some body ->
     encode_latin1 ct = Some ctb ->
     outbox (send_json dumps status v ct headers (mkConn inb out sp)).2 =
       out ++ [HTTPResponseStartEvent status
                 ((B "Content-Length", decimal (length body))
                    :: hs ++ [(B "Content-Type", ctb)]);
               HTTPResponseBodyEvent body false]) /\
  (dumps json_a1 = Some body_a1 ->
   outbox (send_auto dumps OK (Json json_a1) [] (mkConn inb out sp)).2 =
     out ++ [HTTPResponseStartEvent OK
               [(B "Content-Length", B "7");
                (B "Content-Type", B "application/json")];
             HTTPResponseBodyEvent body_a1 false]).
Proof.
  intros Hbody Hhs Hct. split_and!.
  - by rewrite (send_http_data_sent _ _ _ _ body hs cth).
  - by rewrite (send_http_data_sent _ _ _ _ body hs cth).
  - intros v ct ctb Hv Hctb. by rewrite (send_json_sent _ _ _ _ body hs ctb).
  - intros Hlit.
    change (send_auto dumps OK (Json json_a1) [])
      with (send_json dumps OK json_a1 (U "application/json") []).
    by rewrite (send_json_sent _ _ _ _ body_a1 [] (B "application/json")).
Qed.

End Json.

(** A text payload with a header given as [str] and the default content
    type. *)
Lemma send_http_data_two_events_witness :
  outbox (send_http_data OK (Str (U "hello")) (Some (Str (U "text/plain")))
            [(Str (U "x-id"), Bytes (B "7"))] (mkConn [] [] [])).2 =
  [HTTPResponseStartEvent OK
     [(B "Content-Length", B "5"); (B "x-id", B "7");
      (B "Content-Type", B "text/plain")];
   HTTPResponseBodyEvent (B "hello") false].
Proof.
  refine (proj1 (send_http_data_two_events (fun _ => None) OK (Str (U "hello"))
            (Some (Str (U "text/plain"))) [(Str (U "x-id"), Bytes (B "7"))]
            (B "hello") [(B "x-id", B "7")] [(B "Content-Type", B "text/plain")]
            [] [] [] _ _ _)); reflexivity.
Defined.

(** The literal of the claim: with the body [{"a":1}] the claim itself
    gives, the header is 7, the length of these seven bytes, and not 9;
    and a header outside Latin-1 makes the sender raise with nothing sent. *)
Lemma send_json_literal_content_length :
  outbox (send_auto (fun _ => Some body_a1) OK (Json json_a1) []
            (mkConn [] [] [])).2 =
    [HTTPResponseStartEvent OK
       [(B "Content-Length", B "7"); (B "Content-Type", B "application/json")];
     HTTPResponseBodyEvent body_a1 false] /\
  length body_a1 = 7 /\
  B "7" <> B "9" /\
  (send_http_data OK (Bytes (B "x")) None
     [(Str [0x20AC%N], Bytes (B "v"))] (mkConn [] [] [])).1 =
    Raised UnicodeEncodeError /\
  outbox (send_http_data OK (Bytes (B "x")) None
            [(Str [0x20AC%N], Bytes (B "v"))] (mkConn [] [] [])).2 = [].
Proof. split_and!; try reflexivity. discriminate. Qed.

Section Class.
Variable parse : bytes -> option value.
Variables T DataValidationError : Type.
Variable validate : value -> T + DataValidationError.
Variable json : DataValidationError -> value.

Lemma receive_json_spec c :
  receive_json parse c =
  match receive_data c with
  | (Returned res, c') =>
      match parse res with
      | Some v => (Returned v, c')
      | None => (Raised (HTTPBadRequest (PyStr (U "Failed to parse JSON")) []), c')
      end
  | (Raised e, c') => (Raised e, c')
  | (Pending, c') => (Pending, c')
  end.
Proof.
  unfold receive_json, bind.
  destruct (receive_data c) as [[res|e|] c']; try reflexivity.
  by destruct (parse res).
Qed.

Lemma receive_class_ext_spec c :
  receive_class_ext parse T DataValidationError validate json c =
  match receive_json parse c with
  | (Returned v, c') =>
      match validate v with
      | inl x => (Returned (v, x), c')
      | inr e => (Raised (HTTPBadRequest (json e) []), c')
      end
  | (Raised e, c') => (Raised e, c')
  | (Pending, c') => (Pending, c')
  end.
Proof.
  unfold receive_class_ext, bind.
  destruct (receive_json parse c) as [[v|e|] c']; try reflexivity.
  by destruct (validate v).
Qed.

Lemma receive_class_spec c :
  receive_class parse T DataValidationError validate json c =
  match receive_class_ext parse T DataValidationError validate json c with
  | (Returned r, c') => (Returned r.2, c')
  | (Raised e, c') => (Raised e, c')
  | (Pending, c') => (Pending, c')
  end.
Proof.
  unfold receive_class, bind.
  by destruct (receive_class_ext _ _ _ _ _ c) as [[r|e|] c'].
Qed.

(** C8: when the body parses to [v], a [v] that fails validation with the
    error [e] makes [receive_class_ext] and [receive_class] raise
    [HTTPBadRequest(e.json())], the validator's error in its serialized
    form and not the parser's message; a [v] that validates to [x] makes
    [receive_class_ext] return the pair of [v] and [x], and [receive_class]
    return [x]. *)
Theorem receive_class_validation (c c' : HTTPConn) (res : bytes) (v : value) :
  receive_data c = (Returned res, c') ->
  parse res = Some v ->
  match validate v with
  | inr e =>
      receive_class_ext parse T DataValidationError validate json c =
        (Raised (HTTPBadRequest (json e) []), c') /\
      receive_class parse T DataValidationError validate json c =
        (Raised (HTTPBadRequest (json e) []), c') /\
      status (HTTPBadRequest (json e) []) = Some BAD_REQUEST
  | inl x =>
      receive_class_ext parse T DataValidationError validate json c =
        (Returned (v, x), c') /\
      receive_class parse T DataValidationError validate json c =
        (Returned x, c')
  end.
Proof.
  intros Hres Hv.
  rewrite receive_class_spec, receive_class_ext_spec, receive_json_spec, Hres, Hv.
  by destruct (validate v) as [x|e].
Qed.

(** A body that does not parse: the fixed message, whatever the validator. *)
Lemma receive_class_parse_error (c c' : HTTPConn) (res : bytes) :
  receive_data c = (Returned res, c') ->
  parse res = None ->
  receive_class parse T DataValidationError validate json c =
    (Raised (HTTPBadRequest (PyStr (U "Failed to parse JSON")) []), c').
Proof.
  intros Hres Hv.
  by rewrite receive_class_spec, receive_class_ext_spec, receive_json_spec,
    Hres, Hv.
Qed.

End Class.

(** The body [1] in two chunks: it parses, and the validator refuses it. *)
Lemma receive_class_validation_witness :
  receive_class_ext sample_parse nat string sample_validate sample_json
    (mkConn [HTTPRequestEvent [] true; HTTPRequestEvent (B "1") false] [] []) =
    (Raised (HTTPBadRequest (sample_json "expected 0") []),
     mkConn [] []
       (flat_map read_chunk_spans (chunked [[]] (B "1")) ++
        [(RequestSpan, U "http.request_content_length", AttrLen (B "1"))])) /\
  receive_class sample_parse nat string sample_validate sample_json
    (mkConn [HTTPRequestEvent [] true; HTTPRequestEvent (B "1") false] [] []) =
    (Raised (HTTPBadRequest (sample_json "expected 0") []),
     mkConn [] []
       (flat_map read_chunk_spans (chunked [[]] (B "1")) ++
        [(RequestSpan, U "http.request_content_length", AttrLen (B "1"))])) /\
  status (HTTPBadRequest (sample_json "expected 0") []) = Some BAD_REQUEST.
Proof.
  apply (receive_class_validation sample_parse nat string sample_validate
           sample_json
           (mkConn [HTTPRequestEvent [] true; HTTPRequestEvent (B "1") false] [] [])
           _ (B "1") (PyInt 1)); reflexivity.
Defined.

End Http.

(* ===================================================================== *)
(** ** The request context: header lookup *)
(* ===================================================================== *)

Module Lookup.

Lemma memoize_snoc cache hs k v :
  memoize cache (hs ++ [(k, v)]) = <[k := v]> (memoize cache hs).
Proof. unfold memoize. by rewrite foldl_app. Qed.

(** Memoizing keeps what was cached and adds every key it passes. *)
Lemma memoize_lookup hs : forall cache k v,
  cache !! k = Some v \/ (k, v) ∈ hs -> is_Some (memoize cache hs !! k).
Proof.
  induction hs as [|[k' v'] hs IH]; intros cache k v [H|H]; cbn.
  - eauto.
  - by apply elem_of_nil in H.
  - destruct (decide (k' = k)) as [->|Hne].
    + apply (IH _ k v'). left. apply lookup_insert_eq.
    + apply (IH _ k v). left. by rewrite lookup_insert_ne.
  - apply elem_of_cons in H as [[= <- <-]|H].
    + apply (IH _ k v). left. apply lookup_insert_eq.
    + apply (IH _ k v). by right.
Qed.

Lemma memoize_absent hs : forall cache x,
  cache !! x = None -> x ∉ hs.*1 -> memoize cache hs !! x = None.
Proof.
  induction hs as [|[k v] hs IH]; intros cache x Hc Hx; [done|].
  cbn in *. apply IH; [|set_solver].
  rewrite lookup_insert_ne; [done|set_solver].
Qed.

(** The scan stops at the first entry whose key is sought. *)
Lemma scan_headers_first x v pre post : forall cache n,
  x ∉ pre.*1 ->
  scan_headers x (pre ++ (x, v) :: post) cache n =
  (Some v, memoize cache (pre ++ [(x, v)]), n + S (length pre)).
Proof.
  induction pre as [|[k v'] pre IH]; intros cache n Hx; cbn.
  - rewrite decide_True by done. f_equal. lia.
  - rewrite decide_False by set_solver.
    rewrite IH by set_solver. f_equal. lia.
Qed.

(** The scan for a key that is in no entry visits them all. *)
Lemma scan_headers_absent x hs : forall cache n,
  x ∉ hs.*1 ->
  scan_headers x hs cache n = (None, memoize cache hs, n + length hs).
Proof.
  induction hs as [|[k v] hs IH]; intros cache n Hx; cbn.
  - by rewrite Nat.add_0_r.
  - rewrite decide_False by set_solver.
    rewrite IH by set_solver. f_equal. lia.
Qed.

(** The first entry with a given key. *)
Lemma first_entry (x : bytes) (hs : list (bytes * bytes)) :
  x ∈ hs.*1 ->
  exists pre v post, hs = pre ++ (x, v) :: post /\ x ∉ pre.*1.
Proof.
  induction hs as [|[k v] hs IH]; intros Hx; [by apply elem_of_nil in Hx|].
  destruct (decide (k = x)) as [->|Hne].
  - exists [], v, hs. split; [done|]. cbn. apply not_elem_of_nil.
  - cbn in Hx. apply elem_of_cons in Hx as [->|Hx]; [done|].
    destruct (IH Hx) as (pre & v' & post & -> & Hpre).
    exists ((k, v) :: pre), v', post. split; [done|]. cbn. set_solver.
Qed.

Lemma take_first_entry {A} (pre post : list A) a :
  take (S (length pre)) (pre ++ a :: post) = pre ++ [a].
Proof.
  rewrite (cons_middle a pre), app_assoc.
  apply take_app_length'. rewrite length_app. cbn. lia.
Qed.

Lemma header_bytes x w :
  header (Bytes x) w =
  match _header_cache (self w) !! x with
  | Some v => (Returned (Some v), w)
  | None =>
      let '(res, cache, visited) :=
        scan_headers x (headers (scope (self w))) (_header_cache (self w)) 0 in
      (Returned res,
       mkWorld (mkWebsocketContext (scope (self w)) (auth (self w)) cache
                  (_db_response_idx (self w)))
               (ctx_spans w) (header_scans w ++ [visited]))
  end.
Proof. reflexivity. Qed.

Lemma header_str_key s w :
  header (Str s) w =
  match encode_utf8 s with
  | Some x => header (Bytes x) w
  | None => (Raised UnicodeEncodeError, w)
  end.
Proof. unfold header, bind, encode_if_str, encoded. by destruct (encode_utf8 s). Qed.

(** A lookup of a cached key leaves everything as it is: no scan. *)
Lemma header_cached x w v :
  _header_cache (self w) !! x = Some v ->
  header (Bytes x) w = (Returned (Some v), w).
Proof. intros H. by rewrite header_bytes, H. Qed.

(** A lookup of a key that is not cached scans a prefix of the header list
    and memoizes exactly that prefix. *)
Lemma header_uncached x w :
  _header_cache (self w) !! x = None ->
  exists m res,
    m <= length (headers (scope (self w))) /\
    header (Bytes x) w =
      (Returned res,
       mkWorld (mkWebsocketContext (scope (self w)) (auth (self w))
                  (memoize (_header_cache (self w))
                     (take m (headers (scope (self w)))))
                  (_db_response_idx (self w)))
               (ctx_spans w) (header_scans w ++ [m])) /\
    match res with
    | Some v => memoize (_header_cache (self w))
                  (take m (headers (scope (self w)))) !! x = Some v
    | None => m = length (headers (scope (self w))) /\
              (x ∉ (headers (scope (self w))).*1) /\
              memoize (_header_cache (self w))
                (take m (headers (scope (self w)))) !! x = None
    end.
Proof.
  intros Hc. rewrite header_bytes, Hc.
  destruct (decide (x ∈ (headers (scope (self w))).*1)) as [Hin|Hout].
  - destruct (first_entry _ _ Hin) as (pre & v & post & Hhs & Hpre).
    rewrite Hhs, scan_headers_first by done.
    exists (S (length pre)), (Some v).
    rewrite length_app. cbn [length]. split_and!.
    + rewrite Nat.add_succ_r. apply le_n_S, Nat.le_add_r.
    + by rewrite take_first_entry.
    + rewrite take_first_entry, memoize_snoc. apply lookup_insert_eq.
  - rewrite scan_headers_absent by done.
    exists (length (headers (scope (self w)))), None.
    rewrite firstn_all. split_and!; try done. by apply memoize_absent.
Qed.

Lemma header_scans_snoc_inv (l : list nat) m : l <> l ++ [m].
Proof.
  intros H. apply (f_equal length) in H. rewrite length_app in H. cbn in H. lia.
Qed.

Lemma header_bytes_twice (x : bytes) (w : World) :
  let r1 := header (Bytes x) w in
  let r2 := header (Bytes x) r1.2 in
  r2.1 = r1.1 /\
  (forall v, r1.1 = Returned (Some v) -> r2.2 = r1.2) /\
  (r1.1 = Returned None ->
   header_scans r2.2 =
   header_scans r1.2 ++ [length (headers (scope (self w)))]) /\
  (forall k, cached w k -> cached r1.2 k) /\
  (forall m, header_scans r1.2 = header_scans w ++ [m] ->
   forall k v, (k, v) ∈ take m (headers (scope (self w))) -> cached r1.2 k).
Proof.
  cbn zeta. destruct (_header_cache (self w) !! x) as [v|] eqn:Hc.
  - rewrite (header_cached _ _ _ Hc). cbn [fst snd].
    rewrite (header_cached _ _ _ Hc). cbn [fst snd].
    split_and!; try done.
    intros m Hm. by apply header_scans_snoc_inv in Hm.
  - destruct (header_uncached _ _ Hc) as (m & res & Hm & -> & Hres).
    cbn [fst snd]. set (w1 := mkWorld _ _ _).
    assert (Hmono : forall k, cached w k -> cached w1 k).
    { intros k [v Hk]. unfold cached, w1; cbn.
      apply (memoize_lookup _ _ _ v). by left. }
    assert (Hmemo : forall m', header_scans w1 = header_scans w ++ [m'] ->
              forall k v, (k, v) ∈ take m' (headers (scope (self w))) ->
              cached w1 k).
    { intros m' Hm' k v Hk. unfold w1 in Hm'; cbn in Hm'.
      apply app_inv_head in Hm'. injection Hm' as <-.
      unfold cached, w1; cbn. apply (memoize_lookup _ _ _ v). by right. }
    destruct res as [v|].
    + rewrite (header_cached x w1 v) by exact Hres. by split_and!.
    + destruct Hres as (-> & Hnot & Hnone).
      destruct (header_uncached x w1 Hnone) as (m2 & res2 & Hm2 & -> & Hres2).
      cbn [fst snd]. destruct res2 as [v2|].
      * exfalso. unfold w1 in Hres2; cbn in Hres2.
        rewrite memoize_absent in Hres2; [done|done|].
        intros Hin. apply Hnot.
        apply list_elem_of_fmap in Hin as (kv & -> & Hkv).
        apply list_elem_of_fmap_2. by apply (subseteq_take m2).
      * destruct Hres2 as (-> & _ & _). by split_and!.
Qed.

(** C2 (amended): two successive lookups of the same key, compared byte for
    byte after UTF-8 encoding, give the same outcome; when the first one
    finds a value the second one changes nothing, so it scans no header;
    when the first one finds nothing the second one scans the whole header
    list again; a key that is cached stays cached; and every header a scan
    visits is cached afterwards. *)
Theorem header_lookup_twice (x : str_or_bytes) (w : World) :
  let r1 := header x w in
  let r2 := header x r1.2 in
  r2.1 = r1.1 /\
  (forall v, r1.1 = Returned (Some v) -> r2.2 = r1.2) /\
  (r1.1 = Returned None ->
   header_scans r2.2 =
   header_scans r1.2 ++ [length (headers (scope (self w)))]) /\
  (forall k, cached w k -> cached r1.2 k) /\
  (forall m, header_scans r1.2 = header_scans w ++ [m] ->
   forall k v, (k, v) ∈ take m (headers (scope (self w))) -> cached r1.2 k).
Proof.
  destruct x as [s|x]; [|apply header_bytes_twice].
  cbn zeta. rewrite header_str_key.
  destruct (encode_utf8 s) as [x|] eqn:Hs.
  - rewrite header_str_key, Hs. apply header_bytes_twice.
  - cbn [fst snd]. rewrite header_str_key, Hs. cbn [fst snd].
    split_and!; try done.
    intros m Hm. by apply header_scans_snoc_inv in Hm.
Qed.

(** The second header of the sample scope: the first lookup scans two
    entries, the second one none. *)
Lemma header_lookup_twice_witness :
  (header (Str (U "authorization"))
     (header (Str (U "authorization")) sample_world).2).2 =
  (header (Str (U "authorization")) sample_world).2.
Proof.
  refine (proj1 (proj2 (header_lookup_twice (Str (U "authorization"))
                          sample_world)) (B "Bearer t") _).
  vm_compute. reflexivity.
Defined.

(** A key that is in no header: both lookups return [None], and each of
    them scans the two entries of the header list; and a lookup in another
    letter case than the header list's finds nothing. *)
Lemma header_absent_key_rescans :
  (header (Str (U "x-request-id")) sample_world).1 = Returned None /\
  (header (Str (U "x-request-id"))
     (header (Str (U "x-request-id")) sample_world).2).1 = Returned None /\
  header_scans (header (Str (U "x-request-id")) sample_world).2 = [2] /\
  header_scans
    (header (Str (U "x-request-id"))
       (header (Str (U "x-request-id")) sample_world).2).2 = [2; 2] /\
  (header (Str (U "Authorization")) sample_world).1 = Returned None /\
  (header (Str (U "authorization")) sample_world).1 =
    Returned (Some (B "Bearer t")).
Proof. vm_compute. repeat split. Qed.

End Lookup.

(* ===================================================================== *)
(** ** The request context: construction and the response counter *)
(* ===================================================================== *)

Module Construction.

Lemma encode_utf8_authorization :
  encode_utf8 (U "authorization") = Some (B "authorization").
Proof. reflexivity. Qed.

Section Auth.
Variable get_signer_sub : str -> Authorization.
Variable unauthorized_data : value.

Local Abbreviation new := (new get_signer_sub unauthorized_data).
Local Abbreviation post_init := (__post_init__ get_signer_sub unauthorized_data).
Local Abbreviation forbidden := (HTTPForbidden unauthorized_data []).

(** Construction without an authorization header. *)
Lemma new_absent sc sp :
  B "authorization" ∉ (headers sc).*1 ->
  new sc sp =
  (Raised forbidden,
   mkWorld (mkWebsocketContext sc Authorization_default
              (memoize ∅ (headers sc)) 0)
           sp [length (headers sc)]).
Proof.
  intros Habs. unfold ContextWebsocket.new, __post_init__, header_str, bind at 1 2 3.
  rewrite Lookup.header_str_key, encode_utf8_authorization, Lookup.header_bytes.
  cbn [self new_context _header_cache scope]. rewrite lookup_empty.
  rewrite Lookup.scan_headers_absent by done. reflexivity.
Qed.

(** Construction with an authorization header: the first one counts. The
    subject, when there is one, is recorded before presence is tested. *)
Lemma new_present sc sp pre h post :
  headers sc = pre ++ (B "authorization", h) :: post ->
  B "authorization" ∉ pre.*1 ->
  new sc sp =
  let a := get_signer_sub (decode_latin1 h) in
  let ctx := mkWebsocketContext sc a
               (memoize ∅ (pre ++ [(B "authorization", h)])) 0 in
  let sp' := match oauth_sub a with
             | Some sub => sp ++ [(RequestSpan, U "enduser.id", AttrStr sub)]
             | None => sp
             end in
  (if is_present a then Returned tt else Raised forbidden,
   mkWorld ctx sp' [S (length pre)]).
Proof.
  intros Hhs Hpre.
  unfold ContextWebsocket.new, __post_init__, header_str, bind at 1 2 3.
  rewrite Lookup.header_str_key, encode_utf8_authorization, Lookup.header_bytes.
  cbn [self new_context _header_cache scope]. rewrite lookup_empty, Hhs.
  rewrite Lookup.scan_headers_first by done. cbn.
  unfold unauthorized_if_none.
  destruct (oauth_sub (get_signer_sub (decode_latin1 h)));
    destruct (is_present (get_signer_sub (decode_latin1 h))); reflexivity.
Qed.

(** C5 (amended): constructing a [WebsocketContext] either returns or
    raises the forbidden error (status 403). It raises when the connection
    has no authorization header, and when the Authorization that signature
    verification derives from the first authorization header is not
    present; it returns exactly when that Authorization is present, whether
    or not it names a subject, and then holds it; the subject, when there
    is one, is recorded on the request span. When it raises, nothing that
    is to run on the constructed context, such as a handler, runs. *)
Theorem construction_requires_authorization (sc : WebsocketScope)
    (sp : span_log) :
  (B "authorization" ∉ (headers sc).*1 -> (new sc sp).1 = Raised forbidden) /\
  (forall pre h post,
     headers sc = pre ++ (B "authorization", h) :: post ->
     B "authorization" ∉ pre.*1 ->
     (new sc sp).1 =
       (if is_present (get_signer_sub (decode_latin1 h)) then Returned tt
        else Raised forbidden) /\
     auth (self (new sc sp).2) = get_signer_sub (decode_latin1 h) /\
     ctx_spans (new sc sp).2 =
       match oauth_sub (get_signer_sub (decode_latin1 h)) with
       | Some sub => sp ++ [(RequestSpan, U "enduser.id", AttrStr sub)]
       | None => sp
       end) /\
  ((new sc sp).1 = Returned tt \/ (new sc sp).1 = Raised forbidden) /\
  ((new sc sp).1 = Returned tt ->
   is_present (auth (self (new sc sp).2)) = true /\
   exists pre h post,
     headers sc = pre ++ (B "authorization", h) :: post /\
     (B "authorization" ∉ pre.*1) /\
     auth (self (new sc sp).2) = get_signer_sub (decode_latin1 h)) /\
  status forbidden = Some FORBIDDEN /\
  (forall A (handler : M World A),
     (new sc sp).1 = Raised forbidden ->
     bind post_init (fun _ => handler) (mkWorld (new_context sc) sp []) =
     (Raised forbidden, (new sc sp).2)).
Proof.
  assert (Hpresent : forall pre h post,
     headers sc = pre ++ (B "authorization", h) :: post ->
     B "authorization" ∉ pre.*1 ->
     (new sc sp).1 =
       (if is_present (get_signer_sub (decode_latin1 h)) then Returned tt
        else Raised forbidden) /\
     auth (self (new sc sp).2) = get_signer_sub (decode_latin1 h) /\
     ctx_spans (new sc sp).2 =
       match oauth_sub (get_signer_sub (decode_latin1 h)) with
       | Some sub => sp ++ [(RequestSpan, U "enduser.id", AttrStr sub)]
       | None => sp
       end).
  { intros pre h post Hhs Hpre. by rewrite (new_present _ _ _ _ _ Hhs Hpre). }
  split_and!.
  - intros Habs. by rewrite new_absent.
  - exact Hpresent.
  - destruct (decide (B "authorization" ∈ (headers sc).*1)) as [Hin|Hout].
    + destruct (Lookup.first_entry _ _ Hin) as (pre & h & post & Hhs & Hpre).
      destruct (Hpresent pre h post Hhs Hpre) as (-> & _ & _).
      destruct (is_present _); [by left | by right].
    + right. by rewrite new_absent.
  - intros Hret.
    destruct (decide (B "authorization" ∈ (headers sc).*1)) as [Hin|Hout].
    + destruct (Lookup.first_entry _ _ Hin) as (pre & h & post & Hhs & Hpre).
      destruct (Hpresent pre h post Hhs Hpre) as (Hr & Ha & _).
      rewrite Hr in Hret. rewrite Ha. split.
      * by destruct (is_present (get_signer_sub (decode_latin1 h))).
      * by exists pre, h, post.
    + rewrite new_absent in Hret by done. discriminate Hret.
  - reflexivity.
  - intros A handler Hr. unfold bind. fold (new sc sp).
    destruct (new sc sp) as [o w]. cbn in Hr. by subst o.
Qed.

End Auth.

(** The sample scope carries the credential the sample signer accepts;
    the anonymous scope carries none. *)
Lemma construction_requires_authorization_witness :
  (new sample_signer PyNone anonymous_scope []).1 =
    Raised (HTTPForbidden PyNone []) /\
  (new sample_signer PyNone sample_scope []).1 = Returned tt /\
  auth (self (new sample_signer PyNone sample_scope []).2) =
    mkAuthorization (Some (U "alice")) None true.
Proof.
  pose proof (construction_requires_authorization sample_signer PyNone
                anonymous_scope []) as (Habsent & _).
  pose proof (construction_requires_authorization sample_signer PyNone
                sample_scope []) as (_ & Hpresent & _).
  specialize (Hpresent [(B "host", B "example.org")] (B "Bearer t") []
                eq_refl).
  split.
  - apply Habsent. vm_compute. intros H.
    apply list_elem_of_singleton in H. discriminate H.
  - refine (let H := Hpresent _ in conj (proj1 H) (proj1 (proj2 H))).
    vm_compute. intros H. apply list_elem_of_singleton in H. discriminate H.
Defined.

(** Signature verification yields no subject, and construction returns:
    the Authorization is present, its subject is unset, and no subject is
    recorded on the request span. *)
Lemma construction_without_subject :
  (new subjectless_signer PyNone sample_scope []).1 = Returned tt /\
  oauth_sub (auth (self (new subjectless_signer PyNone sample_scope []).2)) =
    None /\
  is_present (auth (self (new subjectless_signer PyNone sample_scope []).2)) =
    true /\
  ctx_spans (new subjectless_signer PyNone sample_scope []).2 = [].
Proof. vm_compute. repeat split. Qed.

Section Counter.
Variable AttributesDict : Type.
Variable dict_to_attrs : AttributesDict -> str -> list (str * attribute_value).

Local Abbreviation add_db_response :=
  (add_db_response AttributesDict dict_to_attrs).
Local Abbreviation add_db_responses :=
  (add_db_responses AttributesDict dict_to_attrs).
Local Abbreviation recorded := (recorded AttributesDict dict_to_attrs).
Local Abbreviation recorded_from := (recorded_from AttributesDict dict_to_attrs).

Lemma add_db_response_step data w :
  add_db_response data w =
  (Returned tt,
   mkWorld (mkWebsocketContext (scope (self w)) (auth (self w))
              (_header_cache (self w)) (_db_response_idx (self w) + 1))
           (ctx_spans w ++ recorded data (_db_response_idx (self w)))
           (header_scans w)).
Proof. reflexivity. Qed.

Lemma add_db_responses_run datas : forall w,
  add_db_responses datas w =
  (Returned tt,
   mkWorld (mkWebsocketContext (scope (self w)) (auth (self w))
              (_header_cache (self w))
              (_db_response_idx (self w) + length datas))
           (ctx_spans w ++ recorded_from (_db_response_idx (self w)) datas)
           (header_scans w)).
Proof.
  induction datas as [|d datas IH]; intros [[sc a cache idx] sp scans].
  - cbn. by rewrite Nat.add_0_r, app_nil_r.
  - cbn [ContextWebsocket.add_db_responses]. unfold bind at 1.
    rewrite add_db_response_step, IH. cbn.
    replace (idx + 1) with (S idx) by lia.
    replace (S idx + length datas) with (idx + S (length datas)) by lia.
    by rewrite <- app_assoc.
Qed.

Lemma db_response_prefix_inj i j :
  db_response_prefix i = db_response_prefix j -> i = j.
Proof. intros H. apply app_inv_head in H. by apply Encoding.str_of_nat_inj. Qed.

Lemma db_response_namespaces_disjoint i j key :
  in_namespace (db_response_prefix i) key ->
  in_namespace (db_response_prefix j) key -> i = j.
Proof.
  intros [r ->] [r' H]. unfold db_response_prefix in H.
  rewrite <- !app_assoc in H. apply app_inv_head in H.
  apply Encoding.str_of_nat_inj.
  eapply Encoding.digits_dot_prefix_free;
    [apply Encoding.str_of_nat_digits..|exact H].
Qed.

(** C9: a new context has the counter 0; [add_db_response] records the
    attributes of its payload under the prefix [db.response.<i>] for the
    current counter [i] and adds one to the counter; so [n] calls record
    under [db.response.0] to [db.response.(n-1)], in this order, whatever
    the payloads, and leave the counter at [n]; the prefixes of different
    counters differ and no key lies in the namespaces of two of them. *)
Theorem db_response_namespaces :
  (forall sc, _db_response_idx (new_context sc) = 0) /\
  (forall data w,
     add_db_response data w =
     (Returned tt,
      mkWorld (mkWebsocketContext (scope (self w)) (auth (self w))
                 (_header_cache (self w)) (_db_response_idx (self w) + 1))
              (ctx_spans w ++
               map (fun kv => (RequestSpan, kv.1, kv.2))
                 (dict_to_attrs data
                    (db_response_prefix (_db_response_idx (self w)))))
              (header_scans w))) /\
  (forall datas w,
     (add_db_responses datas w).1 = Returned tt /\
     _db_response_idx (self (add_db_responses datas w).2) =
       _db_response_idx (self w) + length datas /\
     ctx_spans (add_db_responses datas w).2 =
       ctx_spans w ++ recorded_from (_db_response_idx (self w)) datas) /\
  (forall d0 d1 d2 sc a cache sp scans,
     ctx_spans (add_db_responses [d0; d1; d2]
                  (mkWorld (mkWebsocketContext sc a cache 0) sp scans)).2 =
     sp ++ map (fun kv => (RequestSpan, kv.1, kv.2))
             (dict_to_attrs d0 (U "db.response.0"))
        ++ map (fun kv => (RequestSpan, kv.1, kv.2))
             (dict_to_attrs d1 (U "db.response.1"))
        ++ map (fun kv => (RequestSpan, kv.1, kv.2))
             (dict_to_attrs d2 (U "db.response.2"))) /\
  (forall i j, db_response_prefix i = db_response_prefix j -> i = j) /\
  (forall i j key,
     in_namespace (db_response_prefix i) key ->
     in_namespace (db_response_prefix j) key -> i = j).
Proof.
  split_and!.
  - reflexivity.
  - apply add_db_response_step.
  - intros datas w. by rewrite add_db_responses_run.
  - intros d0 d1 d2 sc a cache sp scans. rewrite add_db_responses_run.
    cbn. by rewrite app_nil_r.
  - apply db_response_prefix_inj.
  - apply db_response_namespaces_disjoint.
Qed.

End Counter.

(** Three calls with the same one-entry payload on a context whose
    counter is 0. *)
Lemma db_response_namespaces_witness :
  ctx_spans
    (add_db_responses _ sample_dict_to_attrs
       [[(U "rows", AttrInt 1)]; [(U "rows", AttrInt 1)]; [(U "rows", AttrInt 1)]]
       sample_world).2 =
  [(RequestSpan, U "db.response.0.rows", AttrInt 1);
   (RequestSpan, U "db.response.1.rows", AttrInt 1);
   (RequestSpan, U "db.response.2.rows", AttrInt 1)].
Proof.
  exact (proj1 (proj2 (proj2 (proj2
           (db_response_namespaces _ sample_dict_to_attrs))))
           [(U "rows", AttrInt 1)] [(U "rows", AttrInt 1)] [(U "rows", AttrInt 1)]
           sample_scope Authorization_default ∅ [] []).
Defined.

End Construction.

(* ===================================================================== *)
(** ** More on the HTTP side *)
(* ===================================================================== *)

Module HttpMore.

(** Every delivery is a complete body followed by more events, a body cut
    short by a disconnect, or a body that is still incomplete. *)
Lemma inbox_shape (inb : list HTTPReceiveEvent) :
  (exists chunks last rest, inb = chunked chunks last ++ rest) \/
  (exists chunks rest, inb = partial chunks ++ HTTPDisconnectEvent :: rest) \/
  (exists chunks, inb = partial chunks).
Proof.
  induction inb as [|[body [|]|] inb IH].
  - right. right. by exists [].
  - destruct IH as [(chunks & last & rest & ->)|[(chunks & rest & ->)|(chunks & ->)]].
    + left. by exists (body :: chunks), last, rest.
    + right. left. by exists (body :: chunks), rest.
    + right. right. by exists (body :: chunks).
  - left. by exists [], body, inb.
  - right. left. by exists [], inb.
Qed.

Lemma receive_data_loop_pending chunks : forall fuel res out sp,
  length chunks < fuel ->
  receive_data_loop fuel res (mkConn (partial chunks) out sp) =
  (Pending, mkConn [] out (sp ++ flat_map read_chunk_spans (partial chunks))).
Proof.
  unfold partial.
  induction chunks as [|x chunks IH]; intros fuel res out sp Hfuel;
    (destruct fuel as [|fuel]; [cbn in Hfuel; lia|]);
    rewrite BodyReader.receive_data_loop_S; cbn [map].
  - cbn. by rewrite app_nil_r.
  - rewrite BodyReader.read_chunk_cons. cbn [fst snd].
    rewrite IH by (cbn in Hfuel; lia).
    cbn [flat_map]. by rewrite <- !app_assoc.
Qed.

Lemma receive_data_pending chunks out sp :
  receive_data (mkConn (partial chunks) out sp) =
  (Pending, mkConn [] out (sp ++ flat_map read_chunk_spans (partial chunks))).
Proof.
  rewrite BodyReader.receive_data_unfold. cbn [inbox].
  rewrite receive_data_loop_pending; [done|].
  unfold partial. rewrite length_map. lia.
Qed.

(** X1: [receive_data] ends in one of three ways, by the events
    delivered: it returns the bytes of a complete body, leaving the events
    after it; it raises [HTTPConnectionClosedError], its only error, when a
    disconnect comes before the last chunk; or it stays suspended when the
    body is still incomplete. It never sends. *)
Theorem receive_data_outcomes (c : HTTPConn) :
  match receive_data c with
  | (Returned res, c') =>
      exists chunks last,
        inbox c = chunked chunks last ++ inbox c' /\
        res = concat chunks ++ last /\ outbox c' = outbox c
  | (Raised e, c') =>
      e = HTTPConnectionClosedError /\
      exists chunks,
        inbox c = partial chunks ++ HTTPDisconnectEvent :: inbox c' /\
        outbox c' = outbox c
  | (Pending, c') =>
      exists chunks,
        inbox c = partial chunks /\ inbox c' = [] /\ outbox c' = outbox c
  end.
Proof.
  destruct c as [inb out sp].
  destruct (inbox_shape inb)
    as [(chunks & last & rest & ->)|[(chunks & rest & ->)|(chunks & ->)]].
  - rewrite BodyReader.receive_data_chunked. by exists chunks, last.
  - rewrite BodyReader.receive_data_disconnect. split; [done|]. by exists chunks.
  - rewrite receive_data_pending. by exists chunks.
Qed.

Section Decode.
Variable parse : bytes -> option value.
Variables T DataValidationError : Type.
Variable validate : value -> T + DataValidationError.
Variable json : DataValidationError -> value.

Local Abbreviation receive_class_ext :=
  (receive_class_ext parse T DataValidationError validate json).
Local Abbreviation receive_class :=
  (receive_class parse T DataValidationError validate json).

(** The parser and the validator act on values only: the connection is
    left as [receive_data] left it. *)
Lemma receive_class_state c :
  (receive_json parse c).2 = (receive_data c).2 /\
  (receive_class_ext c).2 = (receive_data c).2 /\
  (receive_class c).2 = (receive_data c).2.
Proof.
  rewrite Http.receive_class_spec, Http.receive_class_ext_spec,
    Http.receive_json_spec.
  destruct (receive_data c) as [[res|e|] c']; try done.
  destruct (parse res) as [v|]; [|done].
  by destruct (validate v).
Qed.

(** X2: an error of [receive_data] passes through [receive_json],
    [receive_class_ext] and [receive_class] unchanged, so a disconnect is
    never reported as a bad request; [receive_class] raises nothing but
    [HTTPConnectionClosedError] and [HTTPBadRequest] (status 400, no
    headers); and it leaves the connection as [receive_data] left it,
    having sent nothing. *)
Theorem receive_class_raises (c : HTTPConn) :
  (forall e c',
     receive_data c = (Raised e, c') ->
     receive_json parse c = (Raised e, c') /\
     receive_class_ext c = (Raised e, c') /\
     receive_class c = (Raised e, c')) /\
  (forall e,
     (receive_class c).1 = Raised e ->
     e = HTTPConnectionClosedError \/
     (exists data, e = HTTPBadRequest data [] /\ status e = Some BAD_REQUEST)) /\
  (receive_class c).2 = (receive_data c).2 /\
  outbox (receive_class c).2 = outbox c.
Proof.
  split_and!.
  - intros e c' H.
    by rewrite Http.receive_class_spec, Http.receive_class_ext_spec,
      Http.receive_json_spec, H.
  - intros e. rewrite Http.receive_class_spec, Http.receive_class_ext_spec,
      Http.receive_json_spec.
    pose proof (receive_data_outcomes c) as H.
    destruct (receive_data c) as [[res|e'|] c']; cbn.
    + destruct (parse res) as [v|]; cbn.
      * destruct (validate v) as [x|err]; cbn; [discriminate|].
        intros [= <-]. right. by eexists.
      * intros [= <-]. right. by eexists.
    + intros [= <-]. left. by destruct H.
    + discriminate.
  - apply receive_class_state.
  - destruct (receive_class_state c) as (_ & _ & ->).
    pose proof (receive_data_outcomes c) as H.
    destruct (receive_data c) as [[res|e'|] c']; cbn.
    + by destruct H as (? & ? & _ & _ & ?).
    + by destruct H as (_ & ? & _ & ?).
    + by destruct H as (? & _ & _ & ?).
Qed.

(** X18: how a body is cut into chunks does not show: two deliveries
    with the same bytes give [receive_data], [receive_json] and
    [receive_class] the same outcome, and both leave the events after the
    body. *)
Theorem chunking_is_invisible (chunks chunks' : list bytes)
    (last last' : bytes) (rest : list HTTPReceiveEvent)
    (out : list HTTPSendEvent) (sp : span_log) :
  concat chunks ++ last = concat chunks' ++ last' ->
  (receive_data (mkConn (chunked chunks last ++ rest) out sp)).1 =
    (receive_data (mkConn (chunked chunks' last' ++ rest) out sp)).1 /\
  (receive_json parse (mkConn (chunked chunks last ++ rest) out sp)).1 =
    (receive_json parse (mkConn (chunked chunks' last' ++ rest) out sp)).1 /\
  (receive_class (mkConn (chunked chunks last ++ rest) out sp)).1 =
    (receive_class (mkConn (chunked chunks' last' ++ rest) out sp)).1 /\
  inbox (receive_class (mkConn (chunked chunks last ++ rest) out sp)).2 = rest /\
  inbox (receive_class (mkConn (chunked chunks' last' ++ rest) out sp)).2 = rest.
Proof.
  intros H.
  destruct (receive_class_state (mkConn (chunked chunks last ++ rest) out sp))
    as (_ & _ & ->).
  destruct (receive_class_state (mkConn (chunked chunks' last' ++ rest) out sp))
    as (_ & _ & ->).
  rewrite !Http.receive_class_spec, !Http.receive_class_ext_spec,
    !Http.receive_json_spec, !BodyReader.receive_data_chunked, H.
  split_and!; try done.
  - by destruct (parse _).
  - destruct (parse _) as [v|]; [|done]. by destruct (validate v).
Qed.

End Decode.

(** The document [1] in one chunk and in three. *)
Lemma chunking_is_invisible_witness :
  (receive_class sample_parse nat string sample_validate sample_json
     (mkConn (chunked [] (B "1") ++ []) [] [])).1 =
  (receive_class sample_parse nat string sample_validate sample_json
     (mkConn (chunked [[]; B "1"] [] ++ []) [] [])).1.
Proof.
  refine (proj1 (proj2 (proj2 (chunking_is_invisible sample_parse nat string
            sample_validate sample_json [] [[]; B "1"] (B "1") [] [] [] [] _)))).
  reflexivity.
Defined.

(** The three ways [send_http_data] can go. *)
Lemma send_http_data_cases status data content_type headers inb out sp :
  send_http_data status data content_type headers (mkConn inb out sp) =
  match utf8 data with
  | None => (Raised UnicodeEncodeError, mkConn inb out sp)
  | Some body =>
      let sp' := sp ++ [(TracerSpan "send_http_data", U "size", AttrLen body)] in
      match wire_headers headers, content_type_header content_type with
      | Some hs, Some cth =>
          (Returned tt,
           mkConn inb
             (out ++ [HTTPResponseStartEvent status
                        ((B "Content-Length", decimal (length body)) :: hs ++ cth);
                      HTTPResponseBodyEvent body false])
             (sp' ++ [(RequestSpan, U "http.response_content_length",
                       AttrLen body)]))
      | _, _ => (Raised UnicodeEncodeError, mkConn inb out sp')
      end
  end.
Proof.
  destruct (utf8 data) as [body|] eqn:Hbody.
  - destruct (wire_headers headers) as [hs|] eqn:Hhs.
    + destruct (content_type_header content_type) as [cth|] eqn:Hct.
      * rewrite (Http.send_http_data_sent _ _ _ _ body hs cth) by done.
        cbn zeta. by rewrite <- app_assoc.
      * unfold send_http_data.
        unfold bind at 1. rewrite Encoding.encode_if_str_spec. fold (utf8 data).
        rewrite Hbody.
        unfold bind at 1. cbn [set_attribute modify].
        unfold bind at 1. rewrite Encoding.encode_latin1_str_of_nat.
        cbn [encoded ret].
        unfold bind at 1. rewrite Encoding.append_headers_spec, Hhs.
        destruct content_type as [ct|]; [|discriminate].
        unfold bind at 1 2. rewrite Encoding.encode_if_str_spec. fold (latin1 ct).
        cbn in Hct. by destruct (latin1 ct).
    + unfold send_http_data.
      unfold bind at 1. rewrite Encoding.encode_if_str_spec. fold (utf8 data).
      rewrite Hbody.
      unfold bind at 1. cbn [set_attribute modify].
      unfold bind at 1. rewrite Encoding.encode_latin1_str_of_nat.
      cbn [encoded ret].
      unfold bind at 1. by rewrite Encoding.append_headers_spec, Hhs.
  - unfold send_http_data.
    unfold bind at 1. rewrite Encoding.encode_if_str_spec. fold (utf8 data).
    by rewrite Hbody.
Qed.

Lemma send_http_data_all_or_nothing status data content_type headers c :
  all_or_nothing status c (send_http_data status data content_type headers c).
Proof.
  destruct c as [inb out sp]. rewrite send_http_data_cases.
  unfold all_or_nothing.
  destruct (utf8 data) as [body|]; cbn zeta.
  - destruct (wire_headers headers) as [hs|];
      [destruct (content_type_header content_type) as [cth|]|]; cbn.
    + split; [done|]. left. split; [done|]. by eexists _, _.
    + split; [done|]. right. split; [by left|done].
    + split; [done|]. right. split; [by left|done].
  - cbn. split; [done|]. right. split; [by left|done].
Qed.

(** X3: [send_http_data], [send_json] and [send_auto] are all or nothing:
    either they return after exactly two events, the start event with the
    given status and one body event with [more_body] false, or they raise
    an encoding error and have sent nothing; they never read an event; and
    a payload [dumps] refuses makes [send_json] raise with the connection
    untouched. *)
Theorem senders_all_or_nothing (dumps : value -> option bytes)
    (status : HTTPStatus) (headers : Headers) (c : HTTPConn) :
  (forall data content_type,
     all_or_nothing status c
       (send_http_data status data content_type headers c)) /\
  (forall data content_type,
     all_or_nothing status c
       (send_json dumps status data content_type headers c)) /\
  (forall data, all_or_nothing status c (send_auto dumps status data headers c)) /\
  (forall data content_type,
     dumps data = None ->
     send_json dumps status data content_type headers c =
     (Raised JSONEncodeError, c)).
Proof.
  assert (Hjson : forall data content_type,
     all_or_nothing status c
       (send_json dumps status data content_type headers c)).
  { intros data content_type. unfold send_json.
    destruct (dumps data) as [body|].
    - apply send_http_data_all_or_nothing.
    - split; [done|]. right. split; [by right|done]. }
  split_and!.
  - intros. apply send_http_data_all_or_nothing.
  - exact Hjson.
  - intros [x|x]; [apply send_http_data_all_or_nothing|].
    destruct x; first [apply Hjson | apply send_http_data_all_or_nothing].
  - intros data content_type H. unfold send_json. by rewrite H.
Qed.

Lemma parse_decimal_decimal n : parse_decimal (decimal n) = Some n.
Proof.
  unfold parse_decimal, decimal, B.
  rewrite string_of_list_byte_of_string.
  rewrite NilZero.usu by apply Encoding.to_uint_nonnil.
  by rewrite DecimalNat.Unsigned.of_to.
Qed.

(** X4: whenever [send_http_data] returns, the first header of its start
    event is Content-Length and its value, read as a decimal numeral, is
    the number of bytes of the body event: the length of the payload after
    UTF-8 encoding. *)
Theorem content_length_reads_back (status : HTTPStatus) (data : str_or_bytes)
    (content_type : option str_or_bytes) (headers : Headers) (c : HTTPConn) :
  (send_http_data status data content_type headers c).1 = Returned tt ->
  exists v rest body,
    utf8 data = Some body /\
    outbox (send_http_data status data content_type headers c).2 =
      outbox c ++ [HTTPResponseStartEvent status ((B "Content-Length", v) :: rest);
                   HTTPResponseBodyEvent body false] /\
    parse_decimal v = Some (length body).
Proof.
  destruct c as [inb out sp]. rewrite send_http_data_cases.
  destruct (utf8 data) as [body|]; [|discriminate]. cbn zeta.
  destruct (wire_headers headers) as [hs|]; [|discriminate].
  destruct (content_type_header content_type) as [cth|]; [|discriminate].
  intros _. eexists _, _, body. split_and!; [done..|].
  apply parse_decimal_decimal.
Qed.

(** A payload of twelve bytes, two of them for one character. *)
Lemma content_length_reads_back_witness :
  exists v rest body,
    utf8 (Str (U "hello w" ++ [0xF6%N] ++ U "rld")) = Some body /\
    outbox (send_http_data OK (Str (U "hello w" ++ [0xF6%N] ++ U "rld")) None []
              (mkConn [] [] [])).2 =
      [] ++ [HTTPResponseStartEvent OK ((B "Content-Length", v) :: rest);
             HTTPResponseBodyEvent body false] /\
    parse_decimal v = Some (length body).
Proof.
  apply (content_length_reads_back OK
           (Str (U "hello w" ++ [0xF6%N] ++ U "rld")) None [] (mkConn [] [] [])).
  reflexivity.
Defined.

Lemma wire_headers_bytes l : wire_headers (bytes_headers l) = Some l.
Proof.
  induction l as [|[k v] l IH]; [done|]. cbn. fold (bytes_headers l).
  by rewrite IH.
Qed.

Lemma wire_headers_length hs : forall l,
  wire_headers hs = Some l -> length l = length hs.
Proof.
  induction hs as [|[k v] hs IH]; intros l; cbn.
  - by intros [= <-].
  - destruct (latin1 k), (latin1 v), (wire_headers hs) as [r|]; try discriminate.
    intros [= <-]. cbn. f_equal. by apply IH.
Qed.

(** X5: the header loop of [send_http_data] and
    [accept_websocket_connection] appends the caller's headers in their
    order, one pair per header: pairs given as bytes are appended unchanged
    and never fail, Latin-1 text is appended as its bytes; the only error is
    [UnicodeEncodeError]; and the loop has no effect on the connection. *)
Theorem append_headers_order (S : Type) (s : S) (acc : list (bytes * bytes)) :
  (forall l, append_headers (bytes_headers l) acc s = (Returned (acc ++ l), s)) /\
  (forall k v,
     append_headers [(Str (U k), Str (U v))] acc s =
     (Returned (acc ++ [(B k, B v)]), s)) /\
  (forall hs r s',
     append_headers hs acc s = (Returned r, s') ->
     s' = s /\ exists l, r = acc ++ l /\ length l = length hs) /\
  (forall hs e s',
     append_headers hs acc s = (Raised e, s') ->
     e = UnicodeEncodeError /\ s' = s) /\
  (forall hs, (append_headers hs acc s).1 <> Pending).
Proof.
  split_and!.
  - intros l. by rewrite Encoding.append_headers_spec, wire_headers_bytes.
  - intros k v. rewrite Encoding.append_headers_spec. cbn.
    by rewrite !Encoding.encode_latin1_U.
  - intros hs r s'. rewrite Encoding.append_headers_spec.
    destruct (wire_headers hs) as [l|] eqn:Hl; [|discriminate].
    intros [= <- <-]. split; [done|]. exists l. split; [done|].
    by apply wire_headers_length.
  - intros hs e s'. rewrite Encoding.append_headers_spec.
    destruct (wire_headers hs); [discriminate|]. by intros [= <- <-].
  - intros hs. rewrite Encoding.append_headers_spec.
    by destruct (wire_headers hs).
Qed.

(** X6: [send_auto] sends every str and every bytes payload through
    [send_http_data] with the content type [text/plain], without consulting
    [dumps], and any other value as [dumps] serializes it with
    [application/json]; the Content-Type header comes last, after the
    caller's headers, so a Content-Type among the caller's headers is sent
    as well and not replaced. *)
Theorem send_auto_content_type (dumps : value -> option bytes)
    (status : HTTPStatus) (headers : Headers) (hs : list (bytes * bytes))
    (inb : list HTTPReceiveEvent) (out : list HTTPSendEvent) (sp : span_log) :
  wire_headers headers = Some hs ->
  (forall x body,
     utf8 x = Some body ->
     outbox (send_auto dumps status (Raw x) headers (mkConn inb out sp)).2 =
     out ++ [HTTPResponseStartEvent status
               ((B "Content-Length", decimal (length body))
                  :: hs ++ [(B "Content-Type", B "text/plain")]);
             HTTPResponseBodyEvent body false]) /\
  (forall s,
     send_auto dumps status (Json (PyStr s)) headers (mkConn inb out sp) =
     send_auto dumps status (Raw (Str s)) headers (mkConn inb out sp)) /\
  (forall s body,
     encode_utf8 s = Some body ->
     outbox (send_auto dumps status (Json (PyStr s)) headers
               (mkConn inb out sp)).2 =
     out ++ [HTTPResponseStartEvent status
               ((B "Content-Length", decimal (length body))
                  :: hs ++ [(B "Content-Type", B "text/plain")]);
             HTTPResponseBodyEvent body false]) /\
  (forall v body,
     (forall s, v <> PyStr s) ->
     dumps v = Some body ->
     outbox (send_auto dumps status (Json v) headers (mkConn inb out sp)).2 =
     out ++ [HTTPResponseStartEvent status
               ((B "Content-Length", decimal (length body))
                  :: hs ++ [(B "Content-Type", B "application/json")]);
             HTTPResponseBodyEvent body false]).
Proof.
  intros Hhs. split_and!.
  - intros x body Hx. cbn [send_auto].
    by rewrite (Http.send_http_data_sent _ _ _ _ body hs
                  [(B "Content-Type", B "text/plain")]).
  - reflexivity.
  - intros s body Hs. cbn [send_auto].
    by rewrite (Http.send_http_data_sent _ _ _ _ body hs
                  [(B "Content-Type", B "text/plain")]).
  - intros v body Hv Hbody.
    assert (Hjson : send_auto dumps status (Json v) headers =
                    send_json dumps status v (U "application/json") headers).
    { destruct v; try reflexivity. by destruct (Hv x). }
    rewrite Hjson.
    by rewrite (Http.send_json_sent _ _ _ _ _ body hs (B "application/json")).
Qed.

(** The caller sends a Content-Type of its own: both headers go out, the
    caller's first; and a str given as a value goes out as text, two bytes
    long, though [dumps] would serialize it. *)
Lemma send_auto_content_type_witness :
  outbox (send_auto (fun _ => None) OK (Raw (Str (U "<p>")))
            [(Str (U "Content-Type"), Str (U "text/html"))]
            (mkConn [] [] [])).2 =
  [] ++ [HTTPResponseStartEvent OK
     ((B "Content-Length", decimal (length (B "<p>")))
        :: [(B "Content-Type", B "text/html")]
        ++ [(B "Content-Type", B "text/plain")]);
   HTTPResponseBodyEvent (B "<p>") false] /\
  outbox (send_auto (fun _ => Some (B "quoted")) OK (Json (PyStr (U "hi")))
            [(Str (U "Content-Type"), Str (U "text/html"))]
            (mkConn [] [] [])).2 =
  [] ++ [HTTPResponseStartEvent OK
     ((B "Content-Length", decimal (length (B "hi")))
        :: [(B "Content-Type", B "text/html")]
        ++ [(B "Content-Type", B "text/plain")]);
   HTTPResponseBodyEvent (B "hi") false].
Proof.
  split.
  - refine (proj1 (send_auto_content_type (fun _ => None) OK
              [(Str (U "Content-Type"), Str (U "text/html"))]
              [(B "Content-Type", B "text/html")] [] [] [] _)
              (Str (U "<p>")) (B "<p>") _); reflexivity.
  - refine (proj1 (proj2 (proj2 (send_auto_content_type
              (fun _ => Some (B "quoted")) OK
              [(Str (U "Content-Type"), Str (U "text/html"))]
              [(B "Content-Type", B "text/html")] [] [] [] _)))
              (U "hi") (B "hi") _); reflexivity.
Defined.

End HttpMore.

(* ===================================================================== *)
(** ** More on the websocket side *)
(* ===================================================================== *)

Module WebsocketMore.

(** [receive_websocket_data] consumes the event it is given, if any, and
    sends nothing. *)
Lemma receive_websocket_data_frame c :
  outbox (receive_websocket_data c).2 = outbox c /\
  inbox (receive_websocket_data c).2 = tail (inbox c).
Proof.
  destruct c as [[|msg rest] out sp]; [done|].
  rewrite Websocket.receive_websocket_data_cons.
  destruct msg as [|[x|] [t|]|]; try done.
  by destruct (encode_utf8 t).
Qed.

(** The errors [receive_websocket_data] can raise. *)
Lemma receive_websocket_data_raises c e :
  (receive_websocket_data c).1 = Raised e ->
  e = already_established \/ e = empty_message \/
  e = WebsocketConnectionClosedError \/ e = UnicodeEncodeError.
Proof.
  destruct c as [[|msg rest] out sp]; [discriminate|].
  rewrite Websocket.receive_websocket_data_cons.
  destruct msg as [|[x|] [t|]|]; cbn; try discriminate.
  - intros [= <-]. by left.
  - destruct (encode_utf8 t); cbn; [discriminate|]. intros [= <-]. by right; right; right.
  - intros [= <-]. by right; left.
  - intros [= <-]. by right; right; left.
Qed.

Section Decode.
Variable parse : bytes -> option value.
Variables T DataValidationError : Type.
Variable validate : value -> T + DataValidationError.
Variable json : DataValidationError -> value.

Local Abbreviation receive_websocket_class_ext :=
  (receive_websocket_class_ext parse T DataValidationError validate json).
Local Abbreviation receive_websocket_class :=
  (receive_websocket_class parse T DataValidationError validate json).

Lemma receive_websocket_json_spec c :
  receive_websocket_json parse c =
  match receive_websocket_data c with
  | (Returned res, c') =>
      match parse res with
      | Some v => (Returned v, c')
      | None =>
          (Raised (WebsocketBadMessage (PyStr (U "Failed to parse JSON")) []), c')
      end
  | (Raised e, c') => (Raised e, c')
  | (Pending, c') => (Pending, c')
  end.
Proof.
  unfold receive_websocket_json, bind.
  destruct (receive_websocket_data c) as [[res|e|] c']; try reflexivity.
  by destruct (parse res).
Qed.

Lemma receive_websocket_class_ext_spec c :
  receive_websocket_class_ext c =
  match receive_websocket_json parse c with
  | (Returned v, c') =>
      match validate v with
      | inl x => (Returned (v, x), c')
      | inr e => (Raised (WebsocketBadMessage (json e) []), c')
      end
  | (Raised e, c') => (Raised e, c')
  | (Pending, c') => (Pending, c')
  end.
Proof.
  unfold Framework.receive_websocket_class_ext, bind.
  destruct (receive_websocket_json parse c) as [[v|e|] c']; try reflexivity.
  by destruct (validate v).
Qed.

Lemma receive_websocket_class_spec c :
  receive_websocket_class c =
  match receive_websocket_class_ext c with
  | (Returned r, c') => (Returned r.2, c')
  | (Raised e, c') => (Raised e, c')
  | (Pending, c') => (Pending, c')
  end.
Proof.
  unfold Framework.receive_websocket_class, bind.
  by destruct (Framework.receive_websocket_class_ext _ _ _ _ _ c) as [[r|e|] c'].
Qed.

(** X7: for a data event carrying the bytes [x],
    [receive_websocket_class_ext] and [receive_websocket_class] consume
    this one event and decide by [x] alone: a parse failure raises
    [WebsocketBadMessage("Failed to parse JSON")], a validation failure
    raises [WebsocketBadMessage(e.json())], and otherwise the validated
    value is returned, by the ext variant with the parsed value. *)
Theorem receive_websocket_class_cases (msg : WebsocketReceiveEvent)
    (x : bytes) (rest : list WebsocketReceiveEvent)
    (out : list WebsocketSendEvent_) (sp : span_log) :
  carries msg x ->
  receive_websocket_class_ext (mkConn (msg :: rest) out sp) =
    (match parse x with
     | None =>
         Raised (WebsocketBadMessage (PyStr (U "Failed to parse JSON")) [])
     | Some v =>
         match validate v with
         | inl t => Returned (v, t)
         | inr e => Raised (WebsocketBadMessage (json e) [])
         end
     end,
     mkConn rest out (sp ++ read_message_spans x)) /\
  receive_websocket_class (mkConn (msg :: rest) out sp) =
    (match parse x with
     | None =>
         Raised (WebsocketBadMessage (PyStr (U "Failed to parse JSON")) [])
     | Some v =>
         match validate v with
         | inl t => Returned t
         | inr e => Raised (WebsocketBadMessage (json e) [])
         end
     end,
     mkConn rest out (sp ++ read_message_spans x)).
Proof.
  intros Hx.
  rewrite receive_websocket_class_spec, receive_websocket_class_ext_spec,
    receive_websocket_json_spec,
    (Websocket.receive_websocket_data_carries _ _ _ _ _ Hx).
  destruct (parse x) as [v|]; [|done].
  by destruct (validate v).
Qed.

(** X8: an error of [receive_websocket_data] passes through
    [receive_websocket_json] and [receive_websocket_class] unchanged;
    [receive_websocket_class] raises nothing but
    [WebsocketConnectionClosedError], [UnicodeEncodeError] and
    [WebsocketBadMessage] with status 400 and no headers. The latter is a
    [WebsocketErrorResponse], and so an [HTTPErrorResponse] too by
    inheritance, while the other two are neither; the [HTTPBadRequest] of
    the HTTP variant is never raised. The function sends nothing and
    consumes one event, if there is one. *)
Theorem receive_websocket_class_raises (c : WebsocketConn) :
  (forall e c',
     receive_websocket_data c = (Raised e, c') ->
     receive_websocket_json parse c = (Raised e, c') /\
     receive_websocket_class c = (Raised e, c')) /\
  (forall e,
     (receive_websocket_class c).1 = Raised e ->
     e = WebsocketConnectionClosedError \/ e = UnicodeEncodeError \/
     (exists data,
        e = WebsocketBadMessage data [] /\ status e = Some BAD_REQUEST)) /\
  (forall e,
     (receive_websocket_class c).1 = Raised e ->
     (is_WebsocketErrorResponse e = true /\ is_HTTPErrorResponse e = true /\
      status e = Some BAD_REQUEST) \/
     (is_WebsocketErrorResponse e = false /\ is_HTTPErrorResponse e = false /\
      status e = None)) /\
  (forall e data headers,
     (receive_websocket_class c).1 = Raised e ->
     e <> HTTPBadRequest data headers) /\
  outbox (receive_websocket_class c).2 = outbox c /\
  inbox (receive_websocket_class c).2 = tail (inbox c).
Proof.
  assert (Hset : forall e,
     (receive_websocket_class c).1 = Raised e ->
     e = WebsocketConnectionClosedError \/ e = UnicodeEncodeError \/
     (exists data,
        e = WebsocketBadMessage data [] /\ status e = Some BAD_REQUEST)).
  { pose proof (receive_websocket_data_raises c) as Hraise.
    rewrite receive_websocket_class_spec, receive_websocket_class_ext_spec,
      receive_websocket_json_spec.
    destruct (receive_websocket_data c) as [[res|e'|] c1]; cbn in *.
    - intros e. destruct (parse res) as [v|]; cbn.
      + destruct (validate v) as [t|err]; cbn; [discriminate|].
        intros [= <-]. right; right. by eexists.
      + intros [= <-]. right; right. by eexists.
    - intros e H. injection H as <-.
      destruct (Hraise e' eq_refl) as [-> | [-> | [-> | ->]]].
      + right; right. by eexists.
      + right; right. by eexists.
      + by left.
      + by right; left.
    - discriminate. }
  pose proof (receive_websocket_data_frame c) as [Hout Hin].
  split_and!.
  - intros e c' H.
    by rewrite receive_websocket_class_spec, receive_websocket_class_ext_spec,
      receive_websocket_json_spec, H.
  - exact Hset.
  - intros e He.
    destruct (Hset e He) as [-> | [-> | (data & -> & _)]];
      [by right | by right | by left].
  - intros e data headers He.
    destruct (Hset e He) as [-> | [-> | (data' & -> & _)]]; discriminate.
  - rewrite receive_websocket_class_spec, receive_websocket_class_ext_spec,
      receive_websocket_json_spec.
    destruct (receive_websocket_data c) as [[res|e'|] c1]; cbn in *; try done.
    destruct (parse res) as [v|]; [|done]. by destruct (validate v).
  - rewrite receive_websocket_class_spec, receive_websocket_class_ext_spec,
      receive_websocket_json_spec.
    destruct (receive_websocket_data c) as [[res|e'|] c1]; cbn in *; try done.
    destruct (parse res) as [v|]; [|done]. by destruct (validate v).
Qed.

End Decode.

(** A text message that parses and does not validate. *)
Lemma receive_websocket_class_cases_witness :
  receive_websocket_class sample_parse nat string sample_validate sample_json
    (mkConn [text_msg "1"; WebsocketDisconnectEvent] [] []) =
  (Raised (WebsocketBadMessage (sample_json "expected 0") []),
   mkConn [WebsocketDisconnectEvent] [] (read_message_spans (B "1"))).
Proof.
  refine (proj2 (receive_websocket_class_cases sample_parse nat string
            sample_validate sample_json (text_msg "1") (B "1")
            [WebsocketDisconnectEvent] [] [] _)).
  by constructor.
Defined.

Lemma send_websocket_data_cases data inb out sp :
  send_websocket_data data (mkConn inb out sp) =
  match utf8 data with
  | Some x =>
      (Returned tt,
       mkConn inb (out ++ [WebsocketSendEvent (Some x) None])
         (sp ++ [(TracerSpan "send_websocket_data",
                  U "websocket response size", AttrLen x);
                 (RequestSpan, U "websocket.sent_message_content_length",
                  AttrLen x)]))
  | None => (Raised UnicodeEncodeError, mkConn inb out sp)
  end.
Proof.
  unfold send_websocket_data.
  unfold bind at 1. rewrite Encoding.encode_if_str_spec. fold (utf8 data).
  destruct (utf8 data) as [x|]; [|done].
  unfold bind, send, set_attribute, modify; cbn. by rewrite <- app_assoc.
Qed.

(** X9: [send_websocket_data] sends one event; text is sent as its UTF-8
    bytes, exactly as if these bytes had been given; it reads no event; and
    [receive_websocket_data], given an event with the payloads of the event
    sent, returns these bytes. Text that cannot be encoded raises
    [UnicodeEncodeError] and leaves the connection untouched. *)
Theorem send_websocket_data_reads_back (data : str_or_bytes)
    (c : WebsocketConn) :
  match utf8 data with
  | Some x =>
      (send_websocket_data data c).1 = Returned tt /\
      inbox (send_websocket_data data c).2 = inbox c /\
      send_websocket_data data c = send_websocket_data (Bytes x) c /\
      exists bytes_ text,
        outbox (send_websocket_data data c).2 =
          outbox c ++ [WebsocketSendEvent bytes_ text] /\
        forall rest out sp,
          receive_websocket_data
            (mkConn (WebsocketReceiveEvent_ bytes_ text :: rest) out sp) =
          (Returned x, mkConn rest out (sp ++ read_message_spans x))
  | None =>
      send_websocket_data data c = (Raised UnicodeEncodeError, c)
  end.
Proof.
  destruct c as [inb out sp]. rewrite !send_websocket_data_cases.
  destruct (utf8 data) as [x|]; [|done]. cbn [fst snd inbox outbox utf8].
  split_and!; try done.
  - by rewrite send_websocket_data_cases.
  - by exists (Some x), None.
Qed.

(** X10: when a header cannot be encoded as Latin-1,
    [accept_websocket_connection] raises [UnicodeEncodeError] after it has
    consumed the connect event, and has sent nothing; a second attempt,
    with any headers, then receives the next event and raises the
    bad-message error. *)
Theorem accept_cannot_be_retried (msg : WebsocketReceiveEvent)
    (rest : list WebsocketReceiveEvent) (out : list WebsocketSendEvent_)
    (sp : span_log) (subprotocol subprotocol' : option str)
    (headers headers' : Headers) :
  msg <> WebsocketConnectEvent ->
  wire_headers headers = None ->
  accept_websocket_connection subprotocol headers
    (mkConn (WebsocketConnectEvent :: msg :: rest) out sp) =
    (Raised UnicodeEncodeError, mkConn (msg :: rest) out sp) /\
  accept_websocket_connection subprotocol' headers'
    (mkConn (msg :: rest) out sp) =
    (Raised no_connection_request, mkConn rest out sp).
Proof.
  intros Hmsg Hhs. rewrite !Websocket.accept_cons, Hhs. by destruct msg.
Qed.

(** A header name outside Latin-1, then a retry without headers. *)
Lemma accept_cannot_be_retried_witness :
  accept_websocket_connection None [(Str [0x20AC%N], Bytes (B "v"))]
    (mkConn [WebsocketConnectEvent; text_msg "hi"] [] []) =
    (Raised UnicodeEncodeError, mkConn [text_msg "hi"] [] []) /\
  accept_websocket_connection None [] (mkConn [text_msg "hi"] [] []) =
    (Raised no_connection_request, mkConn [] [] []).
Proof.
  apply (accept_cannot_be_retried (text_msg "hi") [] [] [] None None
           [(Str [0x20AC%N], Bytes (B "v"))] []).
  - discriminate.
  - reflexivity.
Defined.

Lemma async_for_suspends msgs : forall xs fuel out sp,
  Forall2 carries msgs xs ->
  async_for fuel (mkConn msgs out sp) =
  (take fuel xs, Suspended,
   mkConn (drop fuel msgs) out
     (sp ++ flat_map read_message_spans (take fuel xs))).
Proof.
  induction msgs as [|msg msgs IH]; intros xs fuel out sp Hxs.
  - apply Forall2_nil_inv_l in Hxs as ->.
    destruct fuel; cbn; by rewrite app_nil_r.
  - apply Forall2_cons_inv_l in Hxs as (x & xs' & Hx & Hxs & ->).
    destruct fuel as [|fuel]; [cbn; by rewrite app_nil_r|].
    rewrite Websocket.async_for_S. unfold anext.
    rewrite (Websocket.receive_websocket_data_carries _ _ _ _ _ Hx).
    rewrite (IH xs') by done. cbn. by rewrite <- app_assoc.
Qed.

(** X11: run to its end, the generator consumes the data events it yields
    and the event that ends it, a disconnect, a connect or an empty message,
    and nothing after it; it sends nothing and records one size per message
    yielded. When only data events were delivered it yields them all and
    stays suspended: the sequence has not ended. *)
Theorem iter_consumes (msgs : list WebsocketReceiveEvent) (xs : list bytes)
    (rest : list WebsocketReceiveEvent) (out : list WebsocketSendEvent_)
    (sp : span_log) :
  Forall2 carries msgs xs ->
  (forall stop,
     stop = WebsocketDisconnectEvent \/ stop = WebsocketConnectEvent \/
     stop = WebsocketReceiveEvent_ None None ->
     (receive_websocket_data_iter (mkConn (msgs ++ stop :: rest) out sp)).2 =
     mkConn rest out (sp ++ flat_map read_message_spans xs)) /\
  receive_websocket_data_iter (mkConn msgs out sp) =
    (xs, Suspended, mkConn [] out (sp ++ flat_map read_message_spans xs)).
Proof.
  intros Hxs. split.
  - intros stop Hstop. unfold receive_websocket_data_iter.
    rewrite (Websocket.async_for_yields msgs xs).
    + cbn [snd]. unfold anext. rewrite Websocket.receive_websocket_data_cons.
      by destruct Hstop as [-> | [-> | ->]].
    + done.
    + cbn. rewrite length_app. cbn. lia.
    + destruct Hstop as [-> | [-> | ->]];
        [apply Websocket.not_carries_disconnect
        | apply Websocket.not_carries_connect
        | apply Websocket.not_carries_empty].
  - unfold receive_websocket_data_iter. rewrite (async_for_suspends msgs xs) by done.
    cbn [inbox]. rewrite (Forall2_length _ _ _ Hxs).
    rewrite take_ge by lia. rewrite drop_ge; [done|].
    rewrite <- (Forall2_length _ _ _ Hxs). lia.
Qed.

(** Two messages, one binary and one text, then an empty message. *)
Lemma iter_consumes_witness :
  (receive_websocket_data_iter
     (mkConn ([binary_msg "a"; text_msg "b"] ++
              WebsocketReceiveEvent_ None None :: [text_msg "c"]) [] [])).2 =
  mkConn [text_msg "c"] []
    (flat_map read_message_spans [B "a"; B "b"]).
Proof.
  refine (proj1 (iter_consumes [binary_msg "a"; text_msg "b"] [B "a"; B "b"]
            [text_msg "c"] [] [] _) _ _).
  - repeat constructor.
  - right. right. reflexivity.
Defined.

End WebsocketMore.

(* ===================================================================== *)
(** ** More on the request context *)
(* ===================================================================== *)

Module ContextMore.

Lemma encode_decode_latin1 x : encode_latin1 (decode_latin1 x) = Some x.
Proof.
  unfold decode_latin1.
  induction x as [|c x IH]; [done|]. cbn. by rewrite Byte.of_to_N, IH.
Qed.

Lemma decode_encode_latin1 s : forall x,
  encode_latin1 s = Some x -> decode_latin1 x = s.
Proof.
  induction s as [|c s IH]; intros x; cbn.
  - by intros [= <-].
  - destruct (Byte.of_N c) as [y|] eqn:Hc; [|discriminate].
    destruct (encode_latin1 s) as [r|]; [|discriminate].
    intros [= <-]. unfold decode_latin1 in *. cbn.
    rewrite (Byte.to_of_N _ Hc). f_equal. by apply IH.
Qed.

Lemma header_str_spec x w :
  header_str x w =
  match header x w with
  | (Returned (Some v), w') => (Returned (Some (decode_latin1 v)), w')
  | (Returned None, w') => (Returned None, w')
  | (Raised e, w') => (Raised e, w')
  | (Pending, w') => (Pending, w')
  end.
Proof.
  unfold header_str, bind.
  by destruct (header x w) as [[[v|]|e|] w'].
Qed.

(** X12: [header_str] returns the Latin-1 decoding of what [header]
    returns, and [None] exactly when [header] does, with the same effect on
    the context; the text it returns encodes back as Latin-1 to the bytes
    of the header, so given back as the value of a header to send it goes
    out as the original bytes. *)
Theorem header_str_round_trip (x : str_or_bytes) (w : World) :
  (forall s w',
     header_str x w = (Returned (Some s), w') ->
     exists v,
       header x w = (Returned (Some v), w') /\
       s = decode_latin1 v /\ encode_latin1 s = Some v /\
       forall k S acc (st : S),
         append_headers [(Bytes k, Str s)] acc st =
         (Returned (acc ++ [(k, v)]), st)) /\
  (forall w', header_str x w = (Returned None, w') <->
              header x w = (Returned None, w')) /\
  (header_str x w).2 = (header x w).2.
Proof.
  rewrite header_str_spec.
  destruct (header x w) as [[[v|]|e|] w1]; cbn [snd].
  - split_and!; [|intros w'; split; discriminate|done].
    intros s w' [= <- <-]. exists v. split_and!; try done.
    + apply encode_decode_latin1.
    + intros k S acc st. rewrite Encoding.append_headers_spec. cbn.
      by rewrite encode_decode_latin1.
  - split_and!; [intros s w'; discriminate|intros w'; split; intros [= <-]; reflexivity|done].
  - split_and!; [intros s w'; discriminate|intros w'; split; discriminate|done].
  - split_and!; [intros s w'; discriminate|intros w'; split; discriminate|done].
Qed.

(** A header value with bytes above 127. *)
Lemma header_str_round_trip_witness :
  exists v,
    header (Bytes (B "x-name"))
      (mkWorld (new_context (mkScope [(B "x-name", [xe9; x74; xe9])])) [] []) =
      (Returned (Some v),
       mkWorld (mkWebsocketContext (mkScope [(B "x-name", [xe9; x74; xe9])])
                  Authorization_default
                  (<[B "x-name" := [xe9; x74; xe9]]> ∅) 0) [] [1]) /\
    [0xE9%N; 0x74%N; 0xE9%N] = decode_latin1 v /\
    encode_latin1 [0xE9%N; 0x74%N; 0xE9%N] = Some v /\
    forall k S acc (st : S),
      append_headers [(Bytes k, Str [0xE9%N; 0x74%N; 0xE9%N])] acc st =
      (Returned (acc ++ [(k, v)]), st).
Proof.
  apply (proj1 (header_str_round_trip (Bytes (B "x-name"))
                  (mkWorld (new_context (mkScope [(B "x-name", [xe9; x74; xe9])]))
                     [] []))).
  reflexivity.
Defined.

(** Memoizing headers of the scope keeps the cache consistent. *)
Lemma memoize_sound (hs l : list (bytes * bytes)) : forall cache,
  (forall k v, cache !! k = Some v -> (k, v) ∈ hs) ->
  l ⊆ hs ->
  forall k v, memoize cache l !! k = Some v -> (k, v) ∈ hs.
Proof.
  induction l as [|[k' v'] l IH]; intros cache Hc Hl k v; cbn; [apply Hc|].
  apply IH.
  - intros k0 v0. destruct (decide (k' = k0)) as [->|Hne].
    + rewrite lookup_insert_eq. intros [= <-]. apply Hl. by left.
    + rewrite lookup_insert_ne by done. apply Hc.
  - intros kv Hkv. apply Hl. by right.
Qed.

(** Keys that are passed by no entry keep their cache entry. *)
Lemma memoize_other l : forall (cache : gmap bytes bytes) k,
  k ∉ l.*1 -> memoize cache l !! k = cache !! k.
Proof.
  induction l as [|[k' v'] l IH]; intros cache k Hk; [done|].
  cbn in *. rewrite IH by set_solver.
  rewrite lookup_insert_ne; [done|set_solver].
Qed.

(** The last entry of a name is what a full pass leaves in the cache. *)
Lemma memoize_last (cache : gmap bytes bytes) l k v post :
  k ∉ post.*1 -> memoize cache (l ++ (k, v) :: post) !! k = Some v.
Proof.
  intros Hk. unfold memoize. rewrite foldl_app. cbn.
  fold (memoize (<[k:=v]> (foldl (fun m kv => <[kv.1:=kv.2]> m) cache l)) post).
  rewrite memoize_other by done. apply lookup_insert_eq.
Qed.

Lemma memoize_dom l : forall (cache : gmap bytes bytes) k,
  is_Some (memoize cache l !! k) <-> is_Some (cache !! k) \/ k ∈ l.*1.
Proof.
  induction l as [|[k' v'] l IH]; intros cache k; cbn.
  - split; [by left | intros [?|H]; [done | by apply elem_of_nil in H]].
  - rewrite IH. destruct (decide (k' = k)) as [->|Hne].
    + rewrite lookup_insert_eq. split; [intros _; right; by left | intros _; left; eauto].
    + rewrite lookup_insert_ne by done. set_solver.
Qed.

Lemma unique_value (hs : list (bytes * bytes)) k v v' :
  NoDup hs.*1 -> (k, v) ∈ hs -> (k, v') ∈ hs -> v = v'.
Proof.
  induction hs as [|[k0 v0] hs IH]; intros Hnd H1 H2;
    [by apply elem_of_nil in H1|].
  cbn in Hnd. apply NoDup_cons in Hnd as [Hk0 Hnd].
  apply elem_of_cons in H1 as [E1|H1]; apply elem_of_cons in H2 as [E2|H2].
  - congruence.
  - injection E1 as -> ->. exfalso. apply Hk0.
    by apply (list_elem_of_fmap_2 fst _ (k0, v')).
  - injection E2 as -> ->. exfalso. apply Hk0.
    by apply (list_elem_of_fmap_2 fst _ (k0, v)).
  - by apply IH.
Qed.

(** What a lookup by bytes returns and leaves, whatever the cache. *)
Lemma header_bytes_sound k w :
  consistent w ->
  consistent (header (Bytes k) w).2 /\
  scope (self (header (Bytes k) w).2) = scope (self w) /\
  (forall v, (header (Bytes k) w).1 = Returned (Some v) ->
             (k, v) ∈ headers (scope (self w))) /\
  ((header (Bytes k) w).1 = Returned None -> k ∉ (headers (scope (self w))).*1).
Proof.
  intros Hw.
  destruct (_header_cache (self w) !! k) as [v|] eqn:Hc.
  - rewrite (Lookup.header_cached _ _ _ Hc). cbn.
    split_and!; [done | done | | discriminate].
    intros v' [= <-]. by apply Hw.
  - destruct (Lookup.header_uncached _ _ Hc) as (m & res & Hm & -> & Hres).
    cbn [fst snd]. split_and!.
    + intros k' v'. cbn. apply memoize_sound; [exact Hw|apply subseteq_take].
    + done.
    + intros v [= ->].
      eapply memoize_sound; [exact Hw | apply subseteq_take | exact Hres].
    + intros [= ->]. by destruct Hres as (_ & ? & _).
Qed.

Lemma header_sound x w :
  consistent w ->
  consistent (header x w).2 /\
  scope (self (header x w).2) = scope (self w) /\
  (forall v, (header x w).1 = Returned (Some v) ->
             exists k, utf8 x = Some k /\ (k, v) ∈ headers (scope (self w))) /\
  ((header x w).1 = Returned None ->
   exists k, utf8 x = Some k /\ k ∉ (headers (scope (self w))).*1).
Proof.
  intros Hw. destruct x as [s|k].
  - rewrite Lookup.header_str_key. cbn [utf8].
    destruct (encode_utf8 s) as [k|]; [|by split_and!].
    destruct (header_bytes_sound k w Hw) as (? & ? & ? & ?).
    split_and!; [done | done | intros v Hv; exists k; auto | intros Hv; exists k; auto].
  - destruct (header_bytes_sound k w Hw) as (? & ? & ? & ?).
    split_and!; [done | done | intros v Hv; exists k; auto | intros Hv; exists k; auto].
Qed.

Section Cache.
Variable get_signer_sub : str -> Authorization.
Variable unauthorized_data : value.
Variable AttributesDict : Type.
Variable dict_to_attrs : AttributesDict -> str -> list (str * attribute_value).

Local Abbreviation new := (new get_signer_sub unauthorized_data).
Local Abbreviation add_db_response :=
  (add_db_response AttributesDict dict_to_attrs).

(** The cache a new context is left with: the headers up to the first
    authorization header, or all of them. *)
Lemma new_cache sc sp :
  exists m,
    m <= length (headers sc) /\
    scope (self (new sc sp).2) = sc /\
    _header_cache (self (new sc sp).2) = memoize ∅ (take m (headers sc)) /\
    header_scans (new sc sp).2 = [m] /\
    _db_response_idx (self (new sc sp).2) = 0.
Proof.
  destruct (decide (B "authorization" ∈ (headers sc).*1)) as [Hin|Hout].
  - destruct (Lookup.first_entry _ _ Hin) as (pre & h & post & Hhs & Hpre).
    rewrite (Construction.new_present _ _ _ _ _ _ _ Hhs Hpre). cbn zeta.
    exists (S (length pre)). rewrite Hhs, Lookup.take_first_entry.
    rewrite length_app. cbn [length].
    split; [rewrite Nat.add_succ_r; apply le_n_S, Nat.le_add_r|].
    by destruct (oauth_sub (get_signer_sub (decode_latin1 h))).
  - rewrite Construction.new_absent by done. cbn.
    exists (length (headers sc)). by rewrite firstn_all.
Qed.

(** X13: the cache only ever holds values of headers of the scope: this
    holds for a new context, whether construction returned or raised, and
    every [header] and [add_db_response] call keeps it. So [header] returns
    a value only if the scope has a header of that name with that value,
    and [None] only if the scope has no header of that name. *)
Theorem header_cache_sound :
  (forall sc sp, consistent (new sc sp).2) /\
  (forall w x, consistent w -> consistent (header x w).2) /\
  (forall w data, consistent w -> consistent (add_db_response data w).2) /\
  (forall w x v,
     consistent w ->
     (header x w).1 = Returned (Some v) ->
     exists k, utf8 x = Some k /\ (k, v) ∈ headers (scope (self w))) /\
  (forall w x,
     consistent w ->
     (header x w).1 = Returned None ->
     exists k, utf8 x = Some k /\ k ∉ (headers (scope (self w))).*1).
Proof.
  split_and!.
  - intros sc sp k v.
    destruct (new_cache sc sp) as (m & _ & -> & -> & _).
    apply memoize_sound; [|apply subseteq_take].
    intros k' v'. by rewrite lookup_empty.
  - intros w x Hw. by apply header_sound.
  - intros w data Hw. by rewrite Construction.add_db_response_step.
  - intros w x v Hw. by apply header_sound.
  - intros w x Hw. by apply header_sound.
Qed.

(** X14: construction scans the header list once, up to the first
    authorization header, and caches exactly the headers it passed; looking
    up the authorization header on the new context returns it and changes
    nothing, so it does not scan again; the response counter is 0. *)
Theorem authorization_is_cached (sc : WebsocketScope) (sp : span_log)
    (pre post : list (bytes * bytes)) (h : bytes) :
  headers sc = pre ++ (B "authorization", h) :: post ->
  B "authorization" ∉ pre.*1 ->
  header (Str (U "authorization")) (new sc sp).2 =
    (Returned (Some h), (new sc sp).2) /\
  header_scans (new sc sp).2 = [S (length pre)] /\
  (forall k, cached (new sc sp).2 k <-> k ∈ (pre ++ [(B "authorization", h)]).*1) /\
  _db_response_idx (self (new sc sp).2) = 0.
Proof.
  intros Hhs Hpre.
  rewrite (Construction.new_present _ _ _ _ _ _ _ Hhs Hpre). cbn zeta.
  assert (Hc : memoize ∅ (pre ++ [(B "authorization", h)]) !! B "authorization"
               = Some h).
  { rewrite Lookup.memoize_snoc. apply lookup_insert_eq. }
  destruct (oauth_sub (get_signer_sub (decode_latin1 h))); cbn [snd].
  - split_and!; try done.
    + rewrite Lookup.header_str_key, Construction.encode_utf8_authorization.
      by apply Lookup.header_cached.
    + intros k. unfold cached. cbn. rewrite memoize_dom, lookup_empty.
      split; [intros [[? Hx]|?]; [discriminate Hx | done] | by right].
  - split_and!; try done.
    + rewrite Lookup.header_str_key, Construction.encode_utf8_authorization.
      by apply Lookup.header_cached.
    + intros k. unfold cached. cbn. rewrite memoize_dom, lookup_empty.
      split; [intros [[? Hx]|?]; [discriminate Hx | done] | by right].
Qed.

(** X15: a header lookup whose key can be encoded and a recorded db
    response do not interfere: in either order they give the same lookup
    result and leave the same context and the same spans. *)
Theorem header_commutes_with_add_db_response (x : str_or_bytes) (k : bytes)
    (data : AttributesDict) (w : World) :
  utf8 x = Some k ->
  bind (header x) (fun r => bind (add_db_response data) (fun _ => ret r)) w =
  bind (add_db_response data) (fun _ => header x) w.
Proof.
  intros Hx.
  assert (Hb : header x = header (Bytes k)).
  { destruct x as [s|k']; cbn in Hx.
    - unfold header at 1, encode_if_str, encoded. by rewrite Hx.
    - by injection Hx as ->. }
  rewrite Hb. unfold bind at 1 3. rewrite Construction.add_db_response_step.
  rewrite !Lookup.header_bytes. cbn [self _header_cache scope].
  destruct (_header_cache (self w) !! k); [done|].
  by destruct (scan_headers _ _ _ _) as [[res cache] n].
Qed.

End Cache.

(** The sample scope: the authorization header is its second header. *)
Lemma authorization_is_cached_witness :
  header (Str (U "authorization")) (new sample_signer PyNone sample_scope []).2 =
    (Returned (Some (B "Bearer t")),
     (new sample_signer PyNone sample_scope []).2) /\
  header_scans (new sample_signer PyNone sample_scope []).2 = [2].
Proof.
  pose proof (authorization_is_cached sample_signer PyNone sample_scope []
                [(B "host", B "example.org")] [] (B "Bearer t") eq_refl) as H.
  refine (let H' := H _ in conj (proj1 H') (proj1 (proj2 H'))).
  vm_compute. intros Hin. apply list_elem_of_singleton in Hin. discriminate Hin.
Defined.

(** A lookup that scans, before and after a recorded response. *)
Lemma header_commutes_with_add_db_response_witness :
  bind (header (Str (U "host")))
       (fun r => bind (add_db_response _ sample_dict_to_attrs
                         [(U "rows", AttrInt 1)])
                      (fun _ => ret r)) sample_world =
  bind (add_db_response _ sample_dict_to_attrs [(U "rows", AttrInt 1)])
       (fun _ => header (Str (U "host"))) sample_world.
Proof.
  apply (header_commutes_with_add_db_response _ sample_dict_to_attrs
           (Str (U "host")) (B "host")).
  reflexivity.
Defined.

(** X16: when a name occurs in two headers, the first lookup of it returns
    the first value; a lookup of a name that is in no header then scans the
    whole list and overwrites the cache entry, after which a lookup of the
    first name returns the last value. *)
Theorem header_duplicate_drift (w : World) (k y v1 v2 : bytes)
    (pre mid post : list (bytes * bytes)) :
  headers (scope (self w)) = pre ++ (k, v1) :: mid ++ (k, v2) :: post ->
  k ∉ pre.*1 -> k ∉ post.*1 ->
  y ∉ (headers (scope (self w))).*1 ->
  _header_cache (self w) !! k = None ->
  _header_cache (self w) !! y = None ->
  let r1 := header (Bytes k) w in
  let r2 := header (Bytes y) r1.2 in
  let r3 := header (Bytes k) r2.2 in
  r1.1 = Returned (Some v1) /\ r2.1 = Returned None /\
  r3.1 = Returned (Some v2).
Proof.
  intros Hhs Hpre Hpost Hy Hk Hcy. cbn zeta.
  rewrite (Lookup.header_bytes k w), Hk, Hhs.
  rewrite Lookup.scan_headers_first by done. cbn [fst snd].
  split; [done|].
  set (w1 := mkWorld _ _ _).
  assert (Hy1 : _header_cache (self w1) !! y = None).
  { unfold w1. cbn. apply Lookup.memoize_absent; [done|].
    intros Hin. apply Hy. rewrite Hhs.
    rewrite (cons_middle (k, v1) pre), app_assoc, fmap_app.
    apply elem_of_app. by left. }
  rewrite (Lookup.header_bytes y w1), Hy1.
  change (headers (scope (self w1))) with (headers (scope (self w))).
  rewrite Lookup.scan_headers_absent by done. cbn [fst snd].
  split; [done|].
  set (w2 := mkWorld _ _ _).
  rewrite (Lookup.header_cached k w2 v2); [done|].
  unfold w2. cbn [self _header_cache]. rewrite Hhs.
  rewrite (app_comm_cons mid), app_assoc.
  by apply memoize_last.
Qed.

(** Two headers of one name, and a lookup of a name that is not there. *)
Lemma header_duplicate_drift_witness :
  let w := mkWorld (new_context (mkScope [(B "cookie", B "a=1");
                                          (B "cookie", B "b=2")])) [] [] in
  let r1 := header (Bytes (B "cookie")) w in
  let r2 := header (Bytes (B "origin")) r1.2 in
  let r3 := header (Bytes (B "cookie")) r2.2 in
  r1.1 = Returned (Some (B "a=1")) /\ r2.1 = Returned None /\
  r3.1 = Returned (Some (B "b=2")).
Proof.
  apply (header_duplicate_drift
           (mkWorld (new_context (mkScope [(B "cookie", B "a=1");
                                           (B "cookie", B "b=2")])) [] [])
           (B "cookie") (B "origin") (B "a=1") (B "b=2") [] [] []);
    try reflexivity; try apply not_elem_of_nil.
  vm_compute. intros Hin.
  apply elem_of_cons in Hin as [Hin|Hin]; [discriminate Hin|].
  apply list_elem_of_singleton in Hin. discriminate Hin.
Defined.

(** X17: when the names of the headers are all different, [header]
    returns the value of a header that is present, whatever consistent
    state the cache is in, that is whatever was looked up before; it keeps
    the cache consistent and the scope unchanged. *)
Theorem header_distinct_names (w : World) (k v : bytes) :
  NoDup (headers (scope (self w))).*1 ->
  consistent w ->
  (k, v) ∈ headers (scope (self w)) ->
  (header (Bytes k) w).1 = Returned (Some v) /\
  consistent (header (Bytes k) w).2 /\
  scope (self (header (Bytes k) w).2) = scope (self w).
Proof.
  intros Hnd Hw Hkv.
  destruct (header_bytes_sound k w Hw) as (Hcons & Hscope & Hsome & Hnone).
  split_and!; [|done|done].
  destruct (header (Bytes k) w) as [[[v'|]|e|] w'] eqn:Hh; cbn [fst snd] in *.
  - f_equal. f_equal. symmetry. eapply unique_value; eauto.
  - exfalso. apply Hnone; [done|].
    by apply (list_elem_of_fmap_2 fst _ (k, v)).
  - destruct (_header_cache (self w) !! k) as [v0|] eqn:Hc.
    + rewrite (Lookup.header_cached _ _ _ Hc) in Hh. discriminate.
    + destruct (Lookup.header_uncached _ _ Hc) as (m & res & _ & Hm & _).
      rewrite Hm in Hh. discriminate.
  - destruct (_header_cache (self w) !! k) as [v0|] eqn:Hc.
    + rewrite (Lookup.header_cached _ _ _ Hc) in Hh. discriminate.
    + destruct (Lookup.header_uncached _ _ Hc) as (m & res & _ & Hm & _).
      rewrite Hm in Hh. discriminate.
Qed.

(** The sample world after a lookup of a name that is not there. *)
Lemma header_distinct_names_witness :
  (header (Bytes (B "host"))
     (header (Bytes (B "origin")) sample_world).2).1 =
  Returned (Some (B "example.org")).
Proof.
  refine (proj1 (header_distinct_names
            (header (Bytes (B "origin")) sample_world).2
            (B "host") (B "example.org") _ _ _)).
  - vm_compute. repeat constructor.
    + intros Hin. apply list_elem_of_singleton in Hin. discriminate Hin.
    + apply not_elem_of_nil.
  - apply (header_sound (Bytes (B "origin")) sample_world).
    intros k v. cbn. by rewrite lookup_empty.
  - vm_compute. by left.
Defined.


End ContextMore.
